(** * dance-dance-reachy: pose-mirroring teleoperation of a Reachy Mini

    A shallow embedding of [src/utils.py], [src/pose_detector.py],
    [src/robot_controller.py] and [main.py], and the properties of the
    specification that were checked against it.

    Numbers.  Python and numpy floats are idealised as real numbers: [math.pi]
    is [PI], [np.arccos] is [acos], [np.linalg.norm] is the square root of the
    sum of squares.  Rounding, overflow and NaN are outside this model; the
    two numpy operations that signal a floating-point error (a division by
    zero and an arccos outside [-1, 1]) are made observable as a raised
    [FloatingPointError], which is what numpy does under
    [np.errstate(all='raise')] (by default it warns and yields inf or nan).
    Where overflow and NaN decide a property, the arithmetic is embedded a
    second time over binary64 floats, in [F64].

    Threads.  Each worker loop is embedded as a function for one iteration
    over the objects the worker was handed; [Main.World] holds the shared
    objects once, and the three workers' iterations act on that one store. *)

From Stdlib Require Import Reals Lra List ZArith Bool Arith Lia.
From Stdlib Require PrimFloat.
Import ListNotations.

Open Scope R_scope.

(** ** Python exceptions and results *)

Inductive exn : Type :=
  | ValueError
  | IndexError
  | AttributeError
  | FloatingPointError
  | QueueFull
  | QueueEmpty.

Inductive outcome (A : Type) : Type :=
  | Returns (a : A)
  | Raises (e : exn).

Arguments Returns {A} a.
Arguments Raises {A} e.

Definition bind {A B : Type} (m : outcome A) (k : A -> outcome B) : outcome B :=
  match m with
  | Returns a => k a
  | Raises e => Raises e
  end.

Notation "x <- m ;; k" := (bind m (fun x => k))
  (at level 61, m at next level, right associativity).

(** ** [queue.Queue] *)

Module Queue.

(** [maxsize <= 0] is an unbounded queue, as in the standard library.
    [unfinished_tasks] is the counter behind [task_done]. *)
Record t (A : Type) : Type := mk {
  maxsize : Z;
  items : list A;
  unfinished_tasks : nat
}.

Arguments mk {A} maxsize items unfinished_tasks.
Arguments maxsize {A} _.
Arguments items {A} _.
Arguments unfinished_tasks {A} _.

Definition create {A : Type} (maxsize : Z) : t A := mk maxsize [] 0.

Definition qsize {A : Type} (q : t A) : Z := Z.of_nat (length (items q)).

Definition full {A : Type} (q : t A) : bool :=
  (0 <? maxsize q)%Z && (maxsize q <=? qsize q)%Z.

(** [put(item, block=False)]: raises [queue.Full] at once when no slot is
    free, and otherwise appends the item. *)
Definition put_nowait {A : Type} (q : t A) (item : A) : outcome (t A) :=
  if full q then Raises QueueFull
  else Returns (mk (maxsize q) (items q ++ [item]) (S (unfinished_tasks q))).

(** [get(timeout=...)] on a queue that stays empty for the whole timeout
    raises [queue.Empty]; otherwise the oldest item is removed. *)
Definition get {A : Type} (q : t A) : outcome (A * t A) :=
  match items q with
  | [] => Raises QueueEmpty
  | x :: rest => Returns (x, mk (maxsize q) rest (unfinished_tasks q))
  end.

Definition task_done {A : Type} (q : t A) : outcome (t A) :=
  match unfinished_tasks q with
  | O => Raises ValueError
  | S n => Returns (mk (maxsize q) (items q) n)
  end.

(** The idiom both producers use:
    [try: q.put_nowait(item)] / [except queue.Full: pass]. *)
Definition put_nowait_except_full {A : Type} (q : t A) (item : A)
    : outcome (t A) :=
  match put_nowait q item with
  | Returns q' => Returns q'
  | Raises QueueFull => Returns q
  | Raises e => Raises e
  end.

End Queue.

(** ** numpy on one-dimensional arrays of reals *)

Module Np.

Definition array : Type := list R.

Fixpoint zip_with (f : R -> R -> R) (a b : array) : array :=
  match a, b with
  | x :: a', y :: b' => f x y :: zip_with f a' b'
  | _, _ => []
  end.

(** [a - b] with broadcasting: equal shapes, or one operand of shape (1,);
    any other pair of shapes raises [ValueError]. *)
Definition sub (a b : array) : outcome array :=
  if Nat.eqb (length a) (length b) then Returns (zip_with Rminus a b)
  else
    match a, b with
    | [x], _ => Returns (map (fun y => x - y) b)
    | _, [y] => Returns (map (fun x => x - y) a)
    | _, _ => Raises ValueError
    end.

Definition sum (a : array) : R := fold_right Rplus 0 a.

(** [np.dot] of two vectors: the shapes must agree, there is no
    broadcasting. *)
Definition dot (a b : array) : outcome R :=
  if Nat.eqb (length a) (length b) then Returns (sum (zip_with Rmult a b))
  else Raises ValueError.

(** [np.linalg.norm] of a vector: the 2-norm. *)
Definition norm (a : array) : R := sqrt (sum (zip_with Rmult a a)).

Definition divide (x y : R) : outcome R :=
  if Req_dec_T y 0 then Raises FloatingPointError else Returns (x / y).

(** [np.clip(v, lo, hi)] is [minimum(maximum(v, lo), hi)]. *)
Definition clip (v lo hi : R) : R := Rmin (Rmax v lo) hi.

Definition arccos (x : R) : outcome R :=
  if Rle_dec (-1) x then
    if Rle_dec x 1 then Returns (acos x) else Raises FloatingPointError
  else Raises FloatingPointError.

(** [np.interp(x, xp, fp)] for increasing sample points [xp]: [fp[0]] to
    the left of the samples, [fp[-1]] at and to the right of the last one,
    and on the segment [xp[j] <= x < xp[j+1]] the value
    [slope * (x - xp[j]) + fp[j]]. *)
Fixpoint interp_from (x x0 f0 : R) (rest : list (R * R)) : R :=
  match rest with
  | [] => f0
  | (x1, f1) :: rest' =>
      if Rlt_dec x x1 then
        if Req_dec_T x x0 then f0
        else (f1 - f0) / (x1 - x0) * (x - x0) + f0
      else interp_from x x1 f1 rest'
  end.

Definition interp (x : R) (xp fp : array) : outcome R :=
  if Nat.eqb (length xp) (length fp) then
    match combine xp fp with
    | [] => Raises ValueError
    | (x0, f0) :: rest =>
        if Rlt_dec x x0 then Returns f0
        else Returns (interp_from x x0 f0 rest)
    end
  else Raises ValueError.

End Np.

(** ** [src/utils.py] *)

Module Utils.

Definition calculate_angle (a b c : Np.array) : outcome R :=
  ba <- Np.sub a b ;;
  bc <- Np.sub c b ;;
  let norm_ba := Np.norm ba in
  let norm_bc := Np.norm bc in
  if Req_dec_T norm_ba 0 then Returns 0
  else if Req_dec_T norm_bc 0 then Returns 0
  else
    dot_product <- Np.dot ba bc ;;
    cosine_angle <- Np.divide dot_product (norm_ba * norm_bc) ;;
    let cosine_angle := Np.clip cosine_angle (-1) 1 in
    angle_rad <- Np.arccos cosine_angle ;;
    Returns angle_rad.

End Utils.

(** ** The signal bundle

    The dictionary [{"left_arm": .., "right_arm": .., "hip_sway": ..}] that
    the vision stage builds for every frame; [None] is Python's [None]. *)

Record PoseData : Type := mkPoseData {
  left_arm : option R;
  right_arm : option R;
  hip_sway : option R
}.

(** ** [src/robot_controller.py] *)

Module RobotController.

Definition SWAY_PIXEL_MAX : R := 80.
Definition HEAD_Y_MM_MAX : R := 35.

Definition SWAY_INPUT_RANGE : Np.array := [- SWAY_PIXEL_MAX; SWAY_PIXEL_MAX].
Definition HEAD_OUTPUT_RANGE : Np.array := [HEAD_Y_MM_MAX; - HEAD_Y_MM_MAX].

(** The robot sink.  [create_head_pose(y=.., mm=True)] builds a head pose
    whose only varied axis is the lateral displacement, kept here in
    millimetres; the robot is the sequence of calls it has received. *)
Record HeadPose : Type := mkHeadPose { y_mm : R }.

Definition create_head_pose (y : R) : HeadPose := mkHeadPose y.

Inductive RobotCall : Type :=
  | SetTarget (head : HeadPose) (antennas : R * R)
  | GotoTarget (head : HeadPose) (antennas : option (R * R)).

Definition ReachyMini : Type := list RobotCall.

(** The objects [control_reachy] works on: its three arguments and its two
    loop-carried locals ([last_antennas] is a two-element list in the
    source).  [stdout] collects the exceptions the loop prints. *)
Record State : Type := mkState {
  mini : ReachyMini;
  pose_queue : Queue.t PoseData;
  stop_event : bool;
  last_head_pose : HeadPose;
  last_antennas : R * R;
  stdout : list exn
}.

Definition init (mini : ReachyMini) (pose_queue : Queue.t PoseData)
    (stop_event : bool) : State :=
  mkState mini pose_queue stop_event (create_head_pose 0) (0, 0) [].

Definition with_pose_queue (st : State) (q : Queue.t PoseData) : State :=
  mkState (mini st) q (stop_event st) (last_head_pose st) (last_antennas st)
          (stdout st).

Definition print_error (st : State) (e : exn) : State :=
  mkState (mini st) (pose_queue st) (stop_event st) (last_head_pose st)
          (last_antennas st) (stdout st ++ [e]).

(** Step 1 of a cycle: the head command. *)
Definition head_command (last : HeadPose) (pose_data : PoseData)
    : outcome HeadPose :=
  match hip_sway pose_data with
  | Some sway =>
      head_y_cmd <- Np.interp sway SWAY_INPUT_RANGE HEAD_OUTPUT_RANGE ;;
      let head_y_cmd := Np.clip head_y_cmd (- HEAD_Y_MM_MAX) HEAD_Y_MM_MAX in
      Returns (create_head_pose head_y_cmd)
  | None => Returns last
  end.

(** Step 2 of a cycle: the antenna commands. *)
Definition antenna_command (last : R * R) (pose_data : PoseData) : R * R :=
  match left_arm pose_data, right_arm pose_data with
  | Some l, Some r =>
      let l_angle_cmd := PI - l in
      let r_angle_cmd := PI - r in
      (- l_angle_cmd, r_angle_cmd)
  | _, _ => last
  end.

(** Step 3: [mini.set_target], then the two stores into the locals. *)
Definition send (st : State) (new_head_pose : HeadPose)
    (new_antennas : R * R) : State :=
  mkState (mini st ++ [SetTarget new_head_pose new_antennas])
          (pose_queue st) (stop_event st) new_head_pose new_antennas
          (stdout st).

(** The two [except] clauses: [queue.Empty] goes back to the loop head,
    any other exception is printed; either way the loop goes on with
    whatever had been mutated before the exception. *)
Definition handle (st : State) (e : exn) : State :=
  match e with
  | QueueEmpty => st
  | _ => print_error st e
  end.

(** One pass through the body of the [while] loop. *)
Definition control_iteration (st : State) : State :=
  match Queue.get (pose_queue st) with
  | Raises e => handle st e
  | Returns (pose_data, q) =>
      let st := with_pose_queue st q in
      match head_command (last_head_pose st) pose_data with
      | Raises e => handle st e
      | Returns new_head_pose =>
          let new_antennas := antenna_command (last_antennas st) pose_data in
          let st := send st new_head_pose new_antennas in
          match Queue.task_done (pose_queue st) with
          | Raises e => handle st e
          | Returns q' => with_pose_queue st q'
          end
      end
  end.

(** After the loop: the final neutral position. *)
Definition control_exit (st : State) : State :=
  mkState (mini st ++ [GotoTarget (create_head_pose 0) (Some (0, 0))])
          (pose_queue st) (stop_event st) (last_head_pose st)
          (last_antennas st) (stdout st).

(** The other threads, seen from this worker: the orchestrator forwards a
    bundle (dropping it when the queue is full) or sets the stop flag. *)
Definition forwarded (st : State) (pose_data : PoseData) : State :=
  match Queue.put_nowait_except_full (pose_queue st) pose_data with
  | Returns q => with_pose_queue st q
  | Raises _ => st
  end.

Definition stopped (st : State) : State :=
  mkState (mini st) (pose_queue st) true (last_head_pose st)
          (last_antennas st) (stdout st).

(** The states of a run of [control_reachy] that was started on a robot
    which had not been streamed a target yet. *)
Definition is_set_target (c : RobotCall) : bool :=
  match c with SetTarget _ _ => true | GotoTarget _ _ => false end.

Inductive reachable : State -> Prop :=
  | reach_init : forall m q s,
      forallb (fun c => negb (is_set_target c)) m = true ->
      reachable (init m q s)
  | reach_iteration : forall st,
      reachable st -> stop_event st = false ->
      reachable (control_iteration st)
  | reach_forwarded : forall st pose_data,
      reachable st -> reachable (forwarded st pose_data)
  | reach_stopped : forall st,
      reachable st -> reachable (stopped st).

(** The target most recently streamed to the robot, and the neutral one
    when there has been none. *)
Fixpoint previous_target (m : ReachyMini) (default : HeadPose * (R * R))
    : HeadPose * (R * R) :=
  match m with
  | [] => default
  | SetTarget h a :: m' => previous_target m' (h, a)
  | GotoTarget _ _ :: m' => previous_target m' default
  end.

Definition neutral : HeadPose * (R * R) := (create_head_pose 0, (0, 0)).

(** The specification's mapping of hip sway to lateral displacement: the
    line through (-80 px, +35 mm) and (+80 px, -35 mm), clamped to
    [-35, +35] mm. *)
Definition spec_line (s : R) : R := 35 + (s - (-80)) * ((-35 - 35) / (80 - (-80))).

Definition spec_lateral (s : R) : R := Rmax (-35) (Rmin 35 (spec_line s)).

End RobotController.

(** ** [src/pose_detector.py] *)

Module PoseDetector.

Definition LEFT_SHOULDER : nat := 5.
Definition RIGHT_SHOULDER : nat := 6.
Definition LEFT_ELBOW : nat := 7.
Definition RIGHT_ELBOW : nat := 8.
Definition LEFT_HIP : nat := 11.
Definition RIGHT_HIP : nat := 12.
Definition CONF_THRESHOLD : R := 5 / 10.

(** One row [x, y, confidence] of the detector's keypoint array. *)
Record Keypoint : Type := mkKeypoint { kx : R; ky : R; kconf : R }.

(** [results[0].keypoints]: absent, or an array indexed by detected
    subject and then by keypoint. *)
Inductive Keypoints : Type :=
  | KeypointsNone
  | KeypointsData (data : list (list Keypoint)).

(** What one successful [cap.read()] followed by the model call yields.
    Pixels are not modelled: an image is the number of its frame. *)
Definition Image : Type := nat.

Record Capture : Type := mkCapture { image : Image; keypoints : Keypoints }.

Inductive Text : Type :=
  | LeftText (angle : R) (org : Z * Z)
  | RightText (angle : R) (org : Z * Z)
  | SwayText (sway : R) (org : Z * Z).

Record AnnotatedFrame : Type := mkAnnotated {
  source : Image;
  texts : list Text
}.

Definition plot (c : Capture) : AnnotatedFrame := mkAnnotated (image c) [].

Definition putText (f : AnnotatedFrame) (t : Text) : AnnotatedFrame :=
  mkAnnotated (source f) (texts f ++ [t]).

(** Python's [int] on a float: truncation towards zero. *)
Definition py_int (x : R) : Z :=
  if Rle_dec 0 x then Int_part x else (- Int_part (- x))%Z.

Inductive Message : Type :=
  | CouldNotOpenVideoSource
  | FailedToReadFrame
  | HipSwayCalibrated (zero : R)
  | LoopStopping.

(** The four objects [yolo_loop] is handed; [pose_zero_offsets] is the
    dictionary's one entry, ['hip_sway']. *)
Record State : Type := mkState {
  frame_queue : Queue.t (AnnotatedFrame * PoseData);
  stop_event : bool;
  calibrate_event : bool;
  pose_zero_offsets : R;
  stdout : list Message
}.

Definition with_frame_queue (st : State)
    (q : Queue.t (AnnotatedFrame * PoseData)) : State :=
  mkState q (stop_event st) (calibrate_event st) (pose_zero_offsets st)
          (stdout st).

Definition print (st : State) (m : Message) : State :=
  mkState (frame_queue st) (stop_event st) (calibrate_event st)
          (pose_zero_offsets st) (stdout st ++ [m]).

Definition set_stop (st : State) : State :=
  mkState (frame_queue st) true (calibrate_event st) (pose_zero_offsets st)
          (stdout st).

(** The three statements under [if calibrate_event.is_set()]. *)
Definition calibrate (st : State) (raw_hip_sway : R) : State :=
  mkState (frame_queue st) (stop_event st) false raw_hip_sway
          (stdout st ++ [HipSwayCalibrated raw_hip_sway]).

Definition getitem {A : Type} (l : list A) (i : nat) : outcome A :=
  match nth_error l i with
  | Some x => Returns x
  | None => Raises IndexError
  end.

Definition confident (k : Keypoint) : bool :=
  if Rlt_dec CONF_THRESHOLD (kconf k) then true else false.

(** [kpt[:2]] *)
Definition position (k : Keypoint) : Np.array := [kx k; ky k].

Definition no_signals : PoseData := mkPoseData None None None.

Definition set_left_arm (d : PoseData) (v : R) : PoseData :=
  mkPoseData (Some v) (right_arm d) (hip_sway d).

Definition set_right_arm (d : PoseData) (v : R) : PoseData :=
  mkPoseData (left_arm d) (Some v) (hip_sway d).

Definition set_hip_sway (d : PoseData) (v : R) : PoseData :=
  mkPoseData (left_arm d) (right_arm d) (Some v).

(** The per-frame locals that the [try] block mutates. *)
Abbreviation Locals := (AnnotatedFrame * PoseData)%type.

(** "Left Arm Angle" and "Right Arm Angle": the exception, if one was
    raised, and the locals as they are at that point. *)
Definition arm_block (side : R -> Z * Z -> Text)
    (store : PoseData -> R -> PoseData)
    (hip shoulder elbow : Keypoint) (loc : Locals) : option exn * Locals :=
  if confident hip && confident shoulder && confident elbow then
    match Utils.calculate_angle (position hip) (position shoulder)
                                (position elbow) with
    | Raises e => (Some e, loc)
    | Returns angle =>
        (None,
         (putText (fst loc)
            (side angle (py_int (kx shoulder), py_int (ky shoulder - 10))),
          store (snd loc) angle))
    end
  else (None, loc).

(** "Hip Sway Calculation". *)
Definition hip_sway_block (st : State)
    (l_hip r_hip l_shoulder r_shoulder : Keypoint) (loc : Locals)
    : State * Locals :=
  if confident l_hip && confident r_hip
     && confident l_shoulder && confident r_shoulder then
    let shoulder_center_x := (kx l_shoulder + kx r_shoulder) / 2 in
    let hip_center_x := (kx l_hip + kx r_hip) / 2 in
    let raw_hip_sway := hip_center_x - shoulder_center_x in
    let st := if calibrate_event st then calibrate st raw_hip_sway else st in
    let final_hip_sway := raw_hip_sway - pose_zero_offsets st in
    (st,
     (putText (fst loc)
        (SwayText final_hip_sway
           (py_int hip_center_x, py_int (ky l_hip - 10))),
      set_hip_sway (snd loc) final_hip_sway))
  else (st, loc).

(** How the [try] block of one frame ends: with [continue], or by reaching
    the statements after it, normally or through the [except] clause. *)
Inductive TryResult : Type :=
  | Continue
  | Finished (raised : option exn) (st : State) (loc : Locals).

Definition six_keypoints (person_kpts : list Keypoint)
    : outcome (Keypoint * Keypoint * Keypoint * Keypoint * Keypoint * Keypoint) :=
  l_hip_kpt <- getitem person_kpts LEFT_HIP ;;
  r_hip_kpt <- getitem person_kpts RIGHT_HIP ;;
  l_shoulder_kpt <- getitem person_kpts LEFT_SHOULDER ;;
  r_shoulder_kpt <- getitem person_kpts RIGHT_SHOULDER ;;
  l_elbow_kpt <- getitem person_kpts LEFT_ELBOW ;;
  r_elbow_kpt <- getitem person_kpts RIGHT_ELBOW ;;
  Returns (l_hip_kpt, r_hip_kpt, l_shoulder_kpt, r_shoulder_kpt,
           l_elbow_kpt, r_elbow_kpt).

Definition try_block (st : State) (kps : Keypoints) (loc : Locals)
    : TryResult :=
  match kps with
  | KeypointsNone => Finished (Some AttributeError) st loc
  | KeypointsData [] => Continue
  | KeypointsData (person_kpts :: _) =>
      match six_keypoints person_kpts with
      | Raises e => Finished (Some e) st loc
      | Returns (l_hip_kpt, r_hip_kpt, l_shoulder_kpt, r_shoulder_kpt,
                 l_elbow_kpt, r_elbow_kpt) =>
          match arm_block LeftText set_left_arm
                  l_hip_kpt l_shoulder_kpt l_elbow_kpt loc with
          | (Some e, loc) => Finished (Some e) st loc
          | (None, loc) =>
              match arm_block RightText set_right_arm
                      r_hip_kpt r_shoulder_kpt r_elbow_kpt loc with
              | (Some e, loc) => Finished (Some e) st loc
              | (None, loc) =>
                  let '(st, loc) :=
                    hip_sway_block st l_hip_kpt r_hip_kpt
                                   l_shoulder_kpt r_shoulder_kpt loc in
                  Finished None st loc
              end
          end
      end
  end.

Inductive LoopCtl : Type := Next | Break.

(** One pass through the body of the [while] loop; [None] is a failed
    [cap.read()]. *)
Definition yolo_iteration (st : State) (read : option Capture)
    : outcome (LoopCtl * State) :=
  match read with
  | None => Returns (Break, print st FailedToReadFrame)
  | Some capture =>
      let annotated_frame := plot capture in
      let latest_pose_data := no_signals in
      match try_block st (keypoints capture)
                      (annotated_frame, latest_pose_data) with
      | Continue => Returns (Next, st)
      | Finished _ st loc =>
          q <- Queue.put_nowait_except_full (frame_queue st) loc ;;
          Returns (Next, with_frame_queue st q)
      end
  end.

(** The loop over the reads of a camera that opened. *)
Fixpoint yolo_frames (st : State) (reads : list (option Capture))
    : outcome State :=
  match reads with
  | [] => Returns st
  | read :: rest =>
      if stop_event st then Returns st
      else
        r <- yolo_iteration st read ;;
        match r with
        | (Break, st') => Returns st'
        | (Next, st') => yolo_frames st' rest
        end
  end.

Definition yolo_loop (opened : bool) (st : State)
    (reads : list (option Capture)) : outcome State :=
  if opened then
    st' <- yolo_frames st reads ;;
    Returns (print st' LoopStopping)
  else Returns (set_stop (print st CouldNotOpenVideoSource)).

(** What one iteration hands to [frame_queue.put_nowait], if it gets
    there. *)
Definition emitted (st : State) (capture : Capture) : option Locals :=
  match try_block st (keypoints capture) (plot capture, no_signals) with
  | Continue => None
  | Finished _ _ loc => Some loc
  end.

(** The state a successful read leaves behind. *)
Definition after_frame (st : State) (capture : Capture) : State :=
  match yolo_iteration st (Some capture) with
  | Returns (_, st') => st'
  | Raises _ => st
  end.

(** The raw sway of a frame in the specification's words:
    [mean(hip_x) - mean(shoulder_x)] of the first subject, when there is
    one, its six keypoints can be read, and both hips and both shoulders
    have a confidence above the threshold. *)
Definition raw_sway (kps : Keypoints) : option R :=
  match kps with
  | KeypointsData (person :: _) =>
      match six_keypoints person with
      | Returns (l_hip, r_hip, l_shoulder, r_shoulder, _, _) =>
          if confident l_hip && confident r_hip
             && confident l_shoulder && confident r_shoulder
          then Some ((kx l_hip + kx r_hip) / 2
                     - (kx l_shoulder + kx r_shoulder) / 2)
          else None
      | Raises _ => None
      end
  | _ => None
  end.

(** A subject whose seventeen keypoints are all seen with confidence 0.9,
    its shoulders (and every keypoint but the hips) at abscissa
    [shoulder_x] and its hips at [hip_x]. *)
Definition subject (shoulder_x hip_x : R) : list Keypoint :=
  repeat (mkKeypoint shoulder_x 0 (9 / 10)) 11
  ++ [mkKeypoint hip_x 0 (9 / 10); mkKeypoint hip_x 0 (9 / 10)]
  ++ repeat (mkKeypoint shoulder_x 0 (9 / 10)) 4.

End PoseDetector.

(** ** [main.py] *)

Module Main.

Import RobotController PoseDetector.

(** The objects [main] creates, each held once: the two queues, the two
    events and the calibration dictionary are shared between the threads
    that were handed them.  [last_head_pose] and [last_antennas] are the
    control thread's loop-carried locals, [window] is what [cv2.imshow]
    has displayed, and the three [_running] flags tell whether a thread is
    still inside its loop. *)
Record World : Type := mkWorld {
  frame_queue : Queue.t (AnnotatedFrame * PoseData);
  pose_queue : Queue.t PoseData;
  stop_signal : bool;
  calibrate_event : bool;
  pose_zero_offsets : R;
  mini : ReachyMini;
  last_head_pose : HeadPose;
  last_antennas : R * R;
  window : list AnnotatedFrame;
  yolo_stdout : list Message;
  reachy_stdout : list exn;
  yolo_running : bool;
  reachy_running : bool;
  ui_running : bool
}.

(** The world at the moment both threads have been started. *)
Definition start : World :=
  mkWorld (Queue.create 2) (Queue.create 10) false false 0
          [GotoTarget (create_head_pose 0) None]
          (create_head_pose 0) (0, 0) [] [] [] true true true.

(** [yolo_loop]'s arguments, and the write-back of what it did to them. *)
Definition yolo_view (w : World) : PoseDetector.State :=
  PoseDetector.mkState (frame_queue w) (stop_signal w) (calibrate_event w)
                       (pose_zero_offsets w) (yolo_stdout w).

Definition yolo_update (w : World) (st : PoseDetector.State)
    (running : bool) : World :=
  mkWorld (PoseDetector.frame_queue st) (pose_queue w)
          (PoseDetector.stop_event st) (PoseDetector.calibrate_event st)
          (PoseDetector.pose_zero_offsets st) (mini w) (last_head_pose w)
          (last_antennas w) (window w) (PoseDetector.stdout st)
          (reachy_stdout w) running (reachy_running w) (ui_running w).

(** [control_reachy]'s arguments and locals, and the write-back. *)
Definition reachy_view (w : World) : RobotController.State :=
  RobotController.mkState (mini w) (pose_queue w) (stop_signal w)
                          (last_head_pose w) (last_antennas w)
                          (reachy_stdout w).

Definition reachy_update (w : World) (st : RobotController.State)
    (running : bool) : World :=
  mkWorld (frame_queue w) (RobotController.pose_queue st)
          (RobotController.stop_event st) (calibrate_event w)
          (pose_zero_offsets w) (RobotController.mini st)
          (RobotController.last_head_pose st)
          (RobotController.last_antennas st) (window w) (yolo_stdout w)
          (RobotController.stdout st) (yolo_running w) running
          (ui_running w).

Definition ord_q : Z := 113.
Definition ord_c : Z := 99.

(** One pass through the body of the UI loop; [key] is what
    [cv2.waitKey(1)] returns. *)
Definition ui_iteration (w : World) (key : Z) : outcome World :=
  match Queue.get (frame_queue w) with
  | Raises QueueEmpty => Returns w
  | Raises e => Raises e
  | Returns ((annotated_frame, latest_pose_data), fq) =>
      pq <- Queue.put_nowait_except_full (pose_queue w) latest_pose_data ;;
      let shown := window w ++ [annotated_frame] in
      let key := Z.land key 255 in
      let stop := if (key =? ord_q)%Z then true else stop_signal w in
      let calib :=
        if (key =? ord_q)%Z then calibrate_event w
        else if (key =? ord_c)%Z then true else calibrate_event w in
      Returns
        (mkWorld fq pq stop calib (pose_zero_offsets w) (mini w)
                 (last_head_pose w) (last_antennas w) shown (yolo_stdout w)
                 (reachy_stdout w) (yolo_running w) (reachy_running w)
                 (negb (key =? ord_q)%Z))
  end.

(** The threads interleave at the grain of one loop iteration.  An event
    names the thread that runs its next iteration, with what the outside
    world gives it. *)
Inductive Event : Type :=
  | Yolo (read : option Capture)
  | Ui (key : Z)
  | Reachy.

Definition exec (w : World) (ev : Event) : outcome World :=
  match ev with
  | Yolo read =>
      if yolo_running w then
        if stop_signal w then
          Returns (yolo_update w (print (yolo_view w) LoopStopping) false)
        else
          r <- yolo_iteration (yolo_view w) read ;;
          match r with
          | (Next, st) => Returns (yolo_update w st true)
          | (Break, st) => Returns (yolo_update w (print st LoopStopping) false)
          end
      else Returns w
  | Ui key =>
      if ui_running w then
        if stop_signal w then
          Returns
            (mkWorld (frame_queue w) (pose_queue w) (stop_signal w)
                     (calibrate_event w) (pose_zero_offsets w) (mini w)
                     (last_head_pose w) (last_antennas w) (window w)
                     (yolo_stdout w) (reachy_stdout w) (yolo_running w)
                     (reachy_running w) false)
        else ui_iteration w key
      else Returns w
  | Reachy =>
      if reachy_running w then
        if stop_signal w then
          Returns (reachy_update w (control_exit (reachy_view w)) false)
        else
          Returns (reachy_update w (control_iteration (reachy_view w)) true)
      else Returns w
  end.

Fixpoint run (w : World) (evs : list Event) : outcome World :=
  match evs with
  | [] => Returns w
  | ev :: rest => w' <- exec w ev ;; run w' rest
  end.




(** Two frames on which the detector gives no keypoint structure at all:
    enough to fill the frame queue when nobody reads it. *)
Definition two_unread_frames : list Event :=
  [Yolo (Some (mkCapture 0%nat KeypointsNone));
   Yolo (Some (mkCapture 1%nat KeypointsNone))].

End Main.

(** ** Runs of the workers *)

Module Runs.

Import RobotController PoseDetector Main.

(** [n] passes through the body of the control loop, the stop flag staying
    down. *)
Fixpoint control_iterations (n : nat) (st : RobotController.State)
    : RobotController.State :=
  match n with
  | O => st
  | S n' => control_iterations n' (control_iteration st)
  end.

(** The target a bundle asks for when the controller holds [held]: each
    channel recomputed from its signal when the signal is there, and kept
    from [held] when it is not. *)
Definition target_for (held : HeadPose * (R * R)) (d : PoseData)
    : HeadPose * (R * R) :=
  (match hip_sway d with
   | Some s => create_head_pose (spec_lateral s)
   | None => fst held
   end,
   antenna_command (snd held) d).

Fixpoint targets_for (held : HeadPose * (R * R)) (ds : list PoseData)
    : list RobotCall :=
  match ds with
  | [] => []
  | d :: ds' =>
      SetTarget (fst (target_for held d)) (snd (target_for held d))
      :: targets_for (target_for held d) ds'
  end.

(** A bundle whose arm angles, where present, are angles between 0 and
    pi. *)
Definition angles_in_range (d : PoseData) : Prop :=
  (forall v, left_arm d = Some v -> 0 <= v <= PI)
  /\ (forall v, right_arm d = Some v -> 0 <= v <= PI).

(** A robot call within the actuators' ranges: at most 35 mm of lateral
    displacement, the left antenna between -pi and 0 and the right one
    between 0 and pi. *)
Definition within_range (c : RobotCall) : Prop :=
  match c with
  | SetTarget h (l, r) =>
      Rabs (y_mm h) <= HEAD_Y_MM_MAX /\ - PI <= l <= 0 /\ 0 <= r <= PI
  | GotoTarget h None => Rabs (y_mm h) <= HEAD_Y_MM_MAX
  | GotoTarget h (Some (l, r)) =>
      Rabs (y_mm h) <= HEAD_Y_MM_MAX /\ - PI <= l <= 0 /\ 0 <= r <= PI
  end.

(** What the three threads keep true of the world they share: the queues
    have their capacities and never hold more, every bundle put on the
    signal queue is matched by one [task_done], the control loop has printed
    no error, the bundles in flight carry angles, and the robot has only
    been given calls within range. *)
Definition healthy (w : World) : Prop :=
  Queue.maxsize (frame_queue w) = 2%Z
  /\ Queue.maxsize (pose_queue w) = 10%Z
  /\ (length (Queue.items (frame_queue w)) <= 2)%nat
  /\ (length (Queue.items (pose_queue w)) <= 10)%nat
  /\ Queue.unfinished_tasks (pose_queue w)
     = length (Queue.items (pose_queue w))
  /\ reachy_stdout w = []
  /\ Forall (fun item => angles_in_range (snd item))
            (Queue.items (frame_queue w))
  /\ Forall angles_in_range (Queue.items (pose_queue w))
  /\ within_range (SetTarget (last_head_pose w) (last_antennas w))
  /\ Forall within_range (mini w).

(** The events of a stretch of time during which nobody is in front of the
    camera: every frame that is read has zero detected subjects. *)
Definition nobody_in_view (ev : Event) : Prop :=
  match ev with
  | Yolo (Some capture) => keypoints capture = KeypointsData []
  | _ => True
  end.


(** An event that is not a press of [q] taken by the UI loop. *)
Definition not_quit_key (ev : Event) : Prop :=
  match ev with
  | Ui key => Z.land key 255 <> ord_q
  | _ => True
  end.

End Runs.

(** ** The arithmetic in binary64

    The parts of the code whose behaviour depends on IEEE arithmetic
    (overflow to infinity, NaN), embedded a second time over the kernel's
    binary64 floats: [calculate_angle] as it runs on arrays of Python floats,
    the raw hip sway, and the head command.  [np.arccos] has no counterpart
    among the primitive operations: its result on a number is kept as the
    symbol [ArccosOf], and on NaN it is NaN.  The detector's keypoints are
    binary32, where the same overflows happen at smaller magnitudes. *)

Module F64.

Import PrimFloat.

Definition array : Type := list float.

Fixpoint zip_with (f : float -> float -> float) (a b : array) : array :=
  match a, b with
  | x :: a', y :: b' => f x y :: zip_with f a' b'
  | _, _ => []
  end.

(** [a - b], with the broadcasting rule of [Np.sub]. *)
Definition np_sub (a b : array) : outcome array :=
  if Nat.eqb (length a) (length b) then Returns (zip_with sub a b)
  else
    match a, b with
    | [x], _ => Returns (map (fun y => x - y)%float b)
    | _, [y] => Returns (map (fun x => x - y)%float a)
    | _, _ => Raises ValueError
    end.

(** The products are accumulated from the left. *)
Definition sum (a : array) : float := fold_left add a 0%float.

Definition dot (a b : array) : outcome float :=
  if Nat.eqb (length a) (length b) then Returns (sum (zip_with mul a b))
  else Raises ValueError.

Definition norm (a : array) : float := sqrt (sum (zip_with mul a a)).

(** numpy's [maximum] and [minimum] as [np.clip] uses them: a NaN first
    operand is returned as it is. *)
Definition maximum (a b : float) : float :=
  if is_nan a then a else if (b <? a)%float then a else b.

Definition minimum (a b : float) : float :=
  if is_nan a then a else if (a <? b)%float then a else b.

Definition clip (v lo hi : float) : float := minimum (maximum v lo) hi.

Inductive Angle : Type :=
  | Float (v : float)
  | ArccosOf (cosine : float).

Definition arccos (x : float) : Angle :=
  if is_nan x then Float x else ArccosOf x.

(** The quotient that is clipped: [dot_product / (norm_ba * norm_bc)]. *)
Definition cosine (ba bc : array) : float :=
  (sum (zip_with mul ba bc) / (norm ba * norm bc))%float.

Definition calculate_angle (a b c : array) : outcome Angle :=
  ba <- np_sub a b ;;
  bc <- np_sub c b ;;
  let norm_ba := norm ba in
  let norm_bc := norm bc in
  if (norm_ba =? 0)%float || (norm_bc =? 0)%float then Returns (Float 0%float)
  else
    dot_product <- dot ba bc ;;
    let cosine_angle := (dot_product / (norm_ba * norm_bc))%float in
    let cosine_angle := clip cosine_angle (-1)%float 1%float in
    Returns (arccos cosine_angle).

(** [raw_hip_sway] of [yolo_loop], from the four abscissas. *)
Definition raw_hip_sway (l_hip_x r_hip_x l_shoulder_x r_shoulder_x : float)
    : float :=
  let shoulder_center_x := ((l_shoulder_x + r_shoulder_x) / 2)%float in
  let hip_center_x := ((l_hip_x + r_hip_x) / 2)%float in
  (hip_center_x - shoulder_center_x)%float.

(** [np.interp] on floats: a NaN abscissa is returned as it is; when the
    interpolated value is NaN the other end of the segment is tried. *)
Fixpoint interp_from (x x0 f0 : float) (rest : list (float * float)) : float :=
  match rest with
  | [] => f0
  | (x1, f1) :: rest' =>
      if (x <? x1)%float then
        if (x =? x0)%float then f0
        else
          let slope := ((f1 - f0) / (x1 - x0))%float in
          let r := (slope * (x - x0) + f0)%float in
          if is_nan r then
            let r' := (slope * (x - x1) + f1)%float in
            if is_nan r' && (f0 =? f1)%float then f0 else r'
          else r
      else interp_from x x1 f1 rest'
  end.

Definition interp (x : float) (xp fp : array) : outcome float :=
  if Nat.eqb (length xp) (length fp) then
    if is_nan x then Returns x
    else
      match combine xp fp with
      | [] => Raises ValueError
      | (x0, f0) :: rest =>
          if (x <? x0)%float then Returns f0
          else Returns (interp_from x x0 f0 rest)
      end
  else Raises ValueError.

Definition SWAY_PIXEL_MAX : float := 80%float.
Definition HEAD_Y_MM_MAX : float := 35%float.
Definition SWAY_INPUT_RANGE : array := [(- SWAY_PIXEL_MAX)%float; SWAY_PIXEL_MAX].
Definition HEAD_OUTPUT_RANGE : array := [HEAD_Y_MM_MAX; (- HEAD_Y_MM_MAX)%float].

(** [head_y_cmd] of [control_reachy], for a hip sway that is present. *)
Definition head_y_cmd (sway : float) : outcome float :=
  head_y_cmd <- interp sway SWAY_INPUT_RANGE HEAD_OUTPUT_RANGE ;;
  Returns (clip head_y_cmd (- HEAD_Y_MM_MAX)%float HEAD_Y_MM_MAX).


End F64.

(** ** Drawing the labels

    [cv2.putText] takes its text origin as a pair of C ints: an origin
    outside their range makes it raise, which ends the [try] block of the
    frame at that point. *)

Module Labels.

Import PoseDetector.

Definition fits_c_int (z : Z) : Prop :=
  (-2147483648 <= z <= 2147483647)%Z.

(** The label of an arm block, anchored 10 pixels above the shoulder, can be
    drawn. *)
Definition drawable (shoulder : Keypoint) : Prop :=
  fits_c_int (py_int (kx shoulder))
  /\ fits_c_int (py_int (ky shoulder - 10)).

End Labels.

(** * Properties *)

(** ** Arrays and the geometry utility *)

Section Arrays.

Import Np.

Lemma length_zip_with (f : R -> R -> R) (a b : array) :
  length (zip_with f a b) = Nat.min (length a) (length b).
Proof.
  revert b; induction a as [|x a IH]; intros [|y b]; simpl; auto.
Qed.

Lemma sub_same_shape (a b : array) :
  length a = length b -> sub a b = Returns (zip_with Rminus a b).
Proof.
  intros H; unfold sub; rewrite H, Nat.eqb_refl; reflexivity.
Qed.

Lemma dot_same_shape (a b : array) :
  length a = length b -> dot a b = Returns (sum (zip_with Rmult a b)).
Proof.
  intros H; unfold dot; rewrite H, Nat.eqb_refl; reflexivity.
Qed.

Lemma sum_squares_nonneg (a : array) : 0 <= sum (zip_with Rmult a a).
Proof.
  induction a as [|x a IH]; simpl; [lra | nra].
Qed.

Lemma norm_nonneg (a : array) : 0 <= norm a.
Proof. unfold norm; apply sqrt_pos. Qed.

Lemma norm_sub_self (a : array) : norm (zip_with Rminus a a) = 0.
Proof.
  unfold norm.
  assert (E : sum (zip_with Rmult (zip_with Rminus a a) (zip_with Rminus a a)) = 0).
  { induction a as [|x a IH]; simpl; [reflexivity | rewrite IH; lra]. }
  rewrite E; apply sqrt_0.
Qed.

Lemma clip_between (v lo hi : R) : lo <= hi -> lo <= clip v lo hi <= hi.
Proof.
  intros H; unfold clip, Rmin, Rmax.
  destruct (Rle_dec v lo); destruct (Rle_dec _ hi); lra.
Qed.

Lemma arccos_in_domain (x : R) :
  -1 <= x <= 1 -> arccos x = Returns (acos x).
Proof.
  intros [H1 H2]; unfold arccos.
  destruct (Rle_dec (-1) x); [|contradiction].
  destruct (Rle_dec x 1); [reflexivity|contradiction].
Qed.

Lemma divide_nonzero (x y : R) : y <> 0 -> divide x y = Returns (x / y).
Proof.
  intros H; unfold divide; destruct (Req_dec_T y 0); [contradiction|reflexivity].
Qed.

End Arrays.

(** On points of one dimension the function returns, and what it returns is
    the zero of the guard or an arccos of a clipped cosine. *)
Lemma calculate_angle_cases (a b c : Np.array) :
  length a = length b -> length c = length b ->
  let ba := Np.zip_with Rminus a b in
  let bc := Np.zip_with Rminus c b in
  (Np.norm ba = 0 \/ Np.norm bc = 0) /\ Utils.calculate_angle a b c = Returns 0
  \/ (Np.norm ba <> 0 /\ Np.norm bc <> 0 /\ Np.norm ba * Np.norm bc <> 0 /\
      Utils.calculate_angle a b c =
        Returns (acos (Np.clip (Np.sum (Np.zip_with Rmult ba bc)
                                / (Np.norm ba * Np.norm bc)) (-1) 1))).
Proof.
  intros Ha Hc ba bc.
  unfold Utils.calculate_angle.
  rewrite (sub_same_shape a b Ha), (sub_same_shape c b Hc); simpl bind.
  fold ba bc.
  destruct (Req_dec_T (Np.norm ba) 0) as [Zba|Nba]; [left; auto|].
  destruct (Req_dec_T (Np.norm bc) 0) as [Zbc|Nbc]; [left; auto|].
  right.
  assert (Hprod : Np.norm ba * Np.norm bc <> 0)
    by (apply Rmult_integral_contrapositive_currified; assumption).
  rewrite dot_same_shape
    by (unfold ba, bc; rewrite !length_zip_with, Ha, Hc; reflexivity).
  simpl bind.
  rewrite (divide_nonzero _ _ Hprod); simpl bind.
  rewrite arccos_in_domain by (apply clip_between; lra).
  simpl bind. auto.
Qed.

(** The angle is always between 0 and pi. *)
Lemma calculate_angle_range (a b c : Np.array) (v : R) :
  length a = length b -> length c = length b ->
  Utils.calculate_angle a b c = Returns v -> 0 <= v <= PI.
Proof.
  intros Ha Hc E.
  destruct (calculate_angle_cases a b c Ha Hc) as [[_ E0]|(_ & _ & _ & E1)].
  - rewrite E0 in E; injection E as <-. split; [lra | left; apply PI_RGT_0].
  - rewrite E1 in E; injection E as <-. apply acos_bound.
Qed.

(** C8: on three points of one dimension (two, three or any other number of
    coordinates) [calculate_angle] returns a value: it raises nothing and,
    division by zero being a raised error in this model, it never divides by
    zero.  The value is exactly 0 whenever [a - b] or [c - b] has norm zero,
    in particular whenever [a = b] or [c = b]. *)
Theorem calculate_angle_total_and_zero_guard (a b c : Np.array) :
  length a = length b -> length c = length b ->
  exists v : R,
    Utils.calculate_angle a b c = Returns v
    /\ (Np.norm (Np.zip_with Rminus a b) = 0
        \/ Np.norm (Np.zip_with Rminus c b) = 0 -> v = 0)
    /\ (a = b \/ c = b -> v = 0).
Proof.
  intros Ha Hc.
  assert (Zero : Np.norm (Np.zip_with Rminus a b) = 0
                 \/ Np.norm (Np.zip_with Rminus c b) = 0 ->
                 Utils.calculate_angle a b c = Returns 0).
  { intros Hz.
    destruct (calculate_angle_cases a b c Ha Hc) as [[_ E0]|(Nba & Nbc & _)];
      [exact E0 | tauto]. }
  destruct (calculate_angle_cases a b c Ha Hc) as [[Hz E0]|(Nba & Nbc & _ & E1)].
  - exists 0; repeat split; auto.
  - eexists; split; [exact E1|]. split.
    + intros Hz; tauto.
    + intros [-> | ->]; exfalso.
      * apply Nba, norm_sub_self.
      * apply Nbc, norm_sub_self.
Qed.

(** The repository's test of a zero-length vector, [test_collinear_point]. *)
Lemma calculate_angle_total_witness :
  exists v : R,
    Utils.calculate_angle [0; 0] [0; 0] [1; 1] = Returns v
    /\ (Np.norm (Np.zip_with Rminus [0; 0] [0; 0]) = 0
        \/ Np.norm (Np.zip_with Rminus [1; 1] [0; 0]) = 0 -> v = 0)
    /\ ([0; 0] = [0; 0] \/ [1; 1] = [0; 0] -> v = 0).
Proof.
  apply (calculate_angle_total_and_zero_guard [0; 0] [0; 0] [1; 1]);
    reflexivity.
Defined.

(** Points of different dimensions are outside the function's domain: numpy
    refuses to subtract them. *)
Remark calculate_angle_mixed_shapes :
  Utils.calculate_angle [1; 0] [0; 0; 0] [0; 1] = Raises ValueError.
Proof. reflexivity. Qed.

(** The angles of [tests/test_utils.py]. *)
Lemma norm_unit_2 (x y : R) : x * x + (y * y + 0) = 1 -> Np.norm [x; y] = 1.
Proof. intros H; unfold Np.norm; simpl; rewrite H; apply sqrt_1. Qed.

Example test_right_angle :
  Utils.calculate_angle [1; 0] [0; 0] [0; 1] = Returns (PI / 2).
Proof.
  destruct (calculate_angle_cases [1; 0] [0; 0] [0; 1] eq_refl eq_refl)
    as [[Hz _]|(_ & _ & _ & E)]; simpl in *.
  - rewrite !norm_unit_2 in Hz by lra. lra.
  - rewrite E, !norm_unit_2 by lra.
    replace ((1 - 0) * (0 - 0) + ((0 - 0) * (1 - 0) + 0)) with 0 by lra.
    replace (0 / (1 * 1)) with 0 by lra.
    unfold Np.clip, Rmin, Rmax.
    destruct (Rle_dec 0 (-1)); [lra|]. destruct (Rle_dec 0 1); [|lra].
    now rewrite acos_0.
Qed.

Example test_straight_angle :
  Utils.calculate_angle [1; 0] [0; 0] [-1; 0] = Returns PI.
Proof.
  destruct (calculate_angle_cases [1; 0] [0; 0] [-1; 0] eq_refl eq_refl)
    as [[Hz _]|(_ & _ & _ & E)]; simpl in *.
  - rewrite !norm_unit_2 in Hz by lra. lra.
  - rewrite E, !norm_unit_2 by lra.
    replace (((1 - 0) * (-1 - 0) + ((0 - 0) * (0 - 0) + 0)) / (1 * 1))
      with (-1) by lra.
    unfold Np.clip, Rmin, Rmax.
    destruct (Rle_dec (-1) (-1)); [|lra]. destruct (Rle_dec (-1) 1); [|lra].
    replace (-1) with (- (1)) by lra.
    rewrite acos_opp, acos_1. f_equal; lra.
Qed.

Example test_zero_angle :
  Utils.calculate_angle [1; 0] [0; 0] [1; 0] = Returns 0.
Proof.
  destruct (calculate_angle_cases [1; 0] [0; 0] [1; 0] eq_refl eq_refl)
    as [[_ E]|(_ & _ & _ & E)]; simpl in *; [exact E|].
  rewrite E, !norm_unit_2 by lra.
  replace (((1 - 0) * (1 - 0) + ((0 - 0) * (0 - 0) + 0)) / (1 * 1))
    with 1 by lra.
  unfold Np.clip, Rmin, Rmax.
  destruct (Rle_dec 1 (-1)); [lra|]. destruct (Rle_dec 1 1); [|lra].
  now rewrite acos_1.
Qed.

(** ** The control stage *)

Section Control.

Import RobotController.

Ltac plain t :=
  lazymatch t with
  | context [Rle_dec] => fail
  | context [Rlt_dec] => fail
  | context [Req_dec_T] => fail
  | _ => idtac
  end.

Ltac decide_reals :=
  repeat (match goal with
          | |- context [Rlt_dec ?x ?y] =>
              plain x; plain y; destruct (Rlt_dec x y)
          | |- context [Req_dec_T ?x ?y] =>
              plain x; plain y; destruct (Req_dec_T x y)
          | |- context [Rle_dec ?x ?y] =>
              plain x; plain y; destruct (Rle_dec x y)
          end; cbn [bind]).

Lemma spec_line_slope (s : R) : spec_line s = - (7 / 16) * s.
Proof. unfold spec_line; field. Qed.

Ltac split_min_max :=
  unfold Np.clip, spec_lateral, Rmin, Rmax;
  rewrite ?spec_line_slope; decide_reals; try lra.

(** The interpolation followed by the clip is the specification's clamped
    line, for every sway. *)
Lemma interp_clip_is_spec_lateral (s : R) :
  (head_y_cmd <- Np.interp s SWAY_INPUT_RANGE HEAD_OUTPUT_RANGE ;;
   Returns (Np.clip head_y_cmd (- HEAD_Y_MM_MAX) HEAD_Y_MM_MAX))
  = Returns (spec_lateral s).
Proof.
  unfold Np.interp, SWAY_INPUT_RANGE, HEAD_OUTPUT_RANGE, SWAY_PIXEL_MAX,
    HEAD_Y_MM_MAX; cbn.
  replace ((- (35) - 35) / (80 - - (80))) with (- (7 / 16)) by field.
  decide_reals; f_equal; split_min_max.
Qed.

Lemma head_command_spec (last : HeadPose) (d : PoseData) :
  head_command last d =
    Returns match hip_sway d with
            | Some s => create_head_pose (spec_lateral s)
            | None => last
            end.
Proof.
  unfold head_command; destruct (hip_sway d) as [s|]; [|reflexivity].
  pose proof (interp_clip_is_spec_lateral s) as H.
  destruct (Np.interp s SWAY_INPUT_RANGE HEAD_OUTPUT_RANGE); simpl in *;
    [injection H as ->; reflexivity | discriminate].
Qed.

Lemma spec_lateral_bounded (s : R) : Rabs (spec_lateral s) <= 35.
Proof.
  apply Rabs_le; split_min_max.
Qed.

(** A cycle that finds a bundle sends exactly one target, made of the two
    commands, and keeps it as the last command. *)
Lemma control_iteration_sends (st : State) (d : PoseData)
    (rest : list PoseData) :
  Queue.items (pose_queue st) = d :: rest ->
  let h := match hip_sway d with
           | Some s => create_head_pose (spec_lateral s)
           | None => last_head_pose st
           end in
  let a := antenna_command (last_antennas st) d in
  mini (control_iteration st) = mini st ++ [SetTarget h a]
  /\ last_head_pose (control_iteration st) = h
  /\ last_antennas (control_iteration st) = a
  /\ Queue.items (pose_queue (control_iteration st)) = rest.
Proof.
  intros Hq h a.
  unfold control_iteration, Queue.get; rewrite Hq.
  cbn [with_pose_queue last_head_pose last_antennas].
  rewrite head_command_spec. fold h a.
  unfold Queue.task_done; cbn.
  destruct (Queue.unfinished_tasks (pose_queue st)); cbn; auto.
Qed.

Lemma control_iteration_idle (st : State) :
  Queue.items (pose_queue st) = [] -> control_iteration st = st.
Proof.
  intros Hq; unfold control_iteration, Queue.get; rewrite Hq; reflexivity.
Qed.

Lemma previous_target_app (m : ReachyMini) (h : HeadPose) (a : R * R)
    (default : HeadPose * (R * R)) :
  previous_target (m ++ [SetTarget h a]) default = (h, a).
Proof.
  revert default; induction m as [|[h' a'|h' a'] m IH]; intros; simpl; auto.
Qed.

Lemma previous_target_none (m : ReachyMini) (default : HeadPose * (R * R)) :
  forallb (fun c => negb (is_set_target c)) m = true ->
  previous_target m default = default.
Proof.
  induction m as [|[h a|h a] m IH]; simpl; intros H; auto; discriminate.
Qed.

(** The controller's two locals are the target it streamed last. *)
Lemma held_is_previous_target (st : State) :
  reachable st ->
  (last_head_pose st, last_antennas st) = previous_target (mini st) neutral.
Proof.
  induction 1 as [m q s Hm|st Hr IH Hs|st d Hr IH|st Hr IH]; cbn.
  - symmetry; apply previous_target_none; exact Hm.
  - destruct (Queue.items (pose_queue st)) as [|d rest] eqn:Hq.
    + rewrite (control_iteration_idle st Hq); exact IH.
    + destruct (control_iteration_sends st d rest Hq) as (-> & -> & -> & _).
      now rewrite previous_target_app.
  - unfold forwarded.
    destruct (Queue.put_nowait_except_full _ _); exact IH.
  - exact IH.
Qed.

End Control.

Section ControlClaims.

Import RobotController.

(** C1: a control cycle that consumes the bundle
    [{left_arm: 0, right_arm: pi, hip_sway: 40}] sends the target with
    lateral displacement -17.5 mm, left antenna -pi and right antenna 0,
    whatever command the controller held before. *)
Theorem end_to_end_target (st : State) (rest : list PoseData) :
  Queue.items (pose_queue st)
    = mkPoseData (Some 0) (Some PI) (Some 40) :: rest ->
  mini (control_iteration st)
    = mini st ++ [SetTarget (create_head_pose (-17.5)) (- PI, 0)].
Proof.
  intros Hq.
  destruct (control_iteration_sends st _ rest Hq) as (-> & _).
  cbn [hip_sway left_arm right_arm antenna_command].
  do 3 f_equal.
  - f_equal. unfold spec_lateral, Rmin, Rmax; rewrite spec_line_slope.
    destruct (Rle_dec 35 (- (7 / 16) * 40)); [lra|].
    destruct (Rle_dec (-35) (- (7 / 16) * 40)); lra.
  - f_equal; lra.
Qed.

Lemma end_to_end_target_witness :
  mini (control_iteration
          (init [] (Queue.mk 10 [mkPoseData (Some 0) (Some PI) (Some 40)] 1)
                false))
    = [] ++ [SetTarget (create_head_pose (-17.5)) (- PI, 0)].
Proof.
  apply (end_to_end_target
           (init [] (Queue.mk 10 [mkPoseData (Some 0) (Some PI) (Some 40)] 1)
                 false) []).
  reflexivity.
Defined.

(** C2: when the consumed bundle has a hip sway [s], the lateral
    displacement sent is the line from (-80 px, +35 mm) to
    (+80 px, -35 mm) at [s], clamped to [-35, +35] mm: 0 at 0, -35 at +80,
    +35 at -80, and of magnitude at most 35 everywhere, beyond 80 pixels
    included. *)
Theorem hip_sway_mapping (st : State) (d : PoseData) (rest : list PoseData)
    (s : R) :
  Queue.items (pose_queue st) = d :: rest ->
  hip_sway d = Some s ->
  exists (y : R) (a : R * R),
    mini (control_iteration st) = mini st ++ [SetTarget (create_head_pose y) a]
    /\ y = spec_lateral s
    /\ (s = 0 -> y = 0)
    /\ (s = 80 -> y = -35)
    /\ (s = -80 -> y = 35)
    /\ (Rabs s > 80 -> Rabs y <= 35)
    /\ Rabs y <= 35.
Proof.
  intros Hq Hs.
  destruct (control_iteration_sends st d rest Hq) as (E & _).
  rewrite Hs in E.
  exists (spec_lateral s), (antenna_command (last_antennas st) d).
  split; [exact E|]. split; [reflexivity|].
  pose proof (spec_lateral_bounded s) as B.
  repeat split; auto; intros ->;
    unfold spec_lateral, Rmin, Rmax; rewrite spec_line_slope;
    repeat match goal with
           | |- context [Rle_dec ?x ?y] =>
               lazymatch x with
               | context [Rle_dec] => fail
               | _ => lazymatch y with
                      | context [Rle_dec] => fail
                      | _ => destruct (Rle_dec x y)
                      end
               end
           end; lra.
Qed.

Lemma hip_sway_mapping_witness :
  exists (y : R) (a : R * R),
    mini (control_iteration
            (init [] (Queue.mk 10 [mkPoseData None None (Some 80)] 1) false))
      = [] ++ [SetTarget (create_head_pose y) a]
    /\ y = spec_lateral 80
    /\ (80 = 0 -> y = 0)
    /\ (80 = 80 -> y = -35)
    /\ (80 = -80 -> y = 35)
    /\ (Rabs 80 > 80 -> Rabs y <= 35)
    /\ Rabs y <= 35.
Proof.
  apply (hip_sway_mapping
           (init [] (Queue.mk 10 [mkPoseData None None (Some 80)] 1) false)
           (mkPoseData None None (Some 80)) [] 80); reflexivity.
Defined.

(** C3: when the consumed bundle has both arm angles [aL] and [aR], the
    antennas sent are [-(pi - aL)] on the left and [pi - aR] on the right:
    magnitude pi at angle 0, magnitude 0 at angle pi, and opposite values
    on the two sides for equal angles. *)
Theorem antenna_mapping (st : State) (d : PoseData) (rest : list PoseData)
    (aL aR : R) :
  Queue.items (pose_queue st) = d :: rest ->
  left_arm d = Some aL ->
  right_arm d = Some aR ->
  exists (h : HeadPose) (left right : R),
    mini (control_iteration st) = mini st ++ [SetTarget h (left, right)]
    /\ left = - (PI - aL)
    /\ right = PI - aR
    /\ (aL = 0 -> Rabs left = PI)
    /\ (aR = 0 -> Rabs right = PI)
    /\ (aL = PI -> Rabs left = 0)
    /\ (aR = PI -> Rabs right = 0)
    /\ (aL = aR -> left = - right).
Proof.
  intros Hq HL HR.
  destruct (control_iteration_sends st d rest Hq) as (E & _).
  unfold antenna_command in E; rewrite HL, HR in E.
  eexists; exists (- (PI - aL)), (PI - aR).
  split; [exact E|].
  pose proof PI_RGT_0 as P.
  repeat split; auto; intros ->.
  - rewrite Rabs_left by lra; lra.
  - rewrite Rabs_right by lra; lra.
  - replace (- (PI - PI)) with 0 by lra; apply Rabs_R0.
  - replace (PI - PI) with 0 by lra; apply Rabs_R0.
  - lra.
Qed.

Lemma antenna_mapping_witness :
  exists (h : HeadPose) (left right : R),
    mini (control_iteration
            (init [] (Queue.mk 10 [mkPoseData (Some 0) (Some 0) None] 1)
                  false))
      = [] ++ [SetTarget h (left, right)]
    /\ left = - (PI - 0)
    /\ right = PI - 0
    /\ (0 = 0 -> Rabs left = PI)
    /\ (0 = 0 -> Rabs right = PI)
    /\ (0 = PI -> Rabs left = 0)
    /\ (0 = PI -> Rabs right = 0)
    /\ (0 = 0 -> left = - right).
Proof.
  apply (antenna_mapping
           (init [] (Queue.mk 10 [mkPoseData (Some 0) (Some 0) None] 1) false)
           (mkPoseData (Some 0) (Some 0) None) [] 0 0); reflexivity.
Defined.

(** C5: in every cycle of a run of the controller that consumes a bundle,
    the two channels hold their last value independently.  Without a hip
    sway the lateral component sent is that of the target sent in the
    previous cycle (the neutral one if there was none), and with one it is
    recomputed; with both arm angles the antennas are recomputed, and
    with either missing the pair sent is the previous cycle's pair. *)
Theorem hold_last_value_per_channel (st : State) (d : PoseData)
    (rest : list PoseData) :
  reachable st ->
  Queue.items (pose_queue st) = d :: rest ->
  exists (h : HeadPose) (a : R * R),
    mini (control_iteration st) = mini st ++ [SetTarget h a]
    /\ (hip_sway d = None -> h = fst (previous_target (mini st) neutral))
    /\ (forall s, hip_sway d = Some s -> h = create_head_pose (spec_lateral s))
    /\ (forall l r, left_arm d = Some l -> right_arm d = Some r ->
          a = (- (PI - l), PI - r))
    /\ (left_arm d = None \/ right_arm d = None ->
          a = snd (previous_target (mini st) neutral)).
Proof.
  intros Hr Hq.
  destruct (control_iteration_sends st d rest Hq) as (E & _).
  rewrite <- (held_is_previous_target st Hr); cbn [fst snd].
  eexists; eexists; split; [exact E|].
  unfold antenna_command. repeat split.
  - intros ->; reflexivity.
  - intros s ->; reflexivity.
  - intros l r -> ->; reflexivity.
  - intros [-> | ->]; [reflexivity|]. destruct (left_arm d); reflexivity.
Qed.

Lemma hold_last_value_per_channel_witness :
  exists (h : HeadPose) (a : R * R),
    mini (control_iteration
            (init [GotoTarget (create_head_pose 0) None]
                  (Queue.mk 10 [mkPoseData (Some 1) (Some 2) None] 1) false))
      = [GotoTarget (create_head_pose 0) None] ++ [SetTarget h a]
    /\ (@None R = None ->
        h = fst (previous_target [GotoTarget (create_head_pose 0) None] neutral))
    /\ (forall s, @None R = Some s -> h = create_head_pose (spec_lateral s))
    /\ (forall l r, Some 1 = Some l -> Some 2 = Some r ->
          a = (- (PI - l), PI - r))
    /\ (Some 1 = @None R \/ Some 2 = @None R ->
          a = snd (previous_target [GotoTarget (create_head_pose 0) None] neutral)).
Proof.
  apply (hold_last_value_per_channel
           (init [GotoTarget (create_head_pose 0) None]
                 (Queue.mk 10 [mkPoseData (Some 1) (Some 2) None] 1) false)
           (mkPoseData (Some 1) (Some 2) None) []).
  - apply reach_init; reflexivity.
  - reflexivity.
Defined.

End ControlClaims.

(** ** Bounded queues *)

Section Queues.

Context {A : Type}.

Lemma put_nowait_full (q : Queue.t A) (x : A) :
  Queue.full q = true -> Queue.put_nowait q x = Raises QueueFull.
Proof. intros H; unfold Queue.put_nowait; rewrite H; reflexivity. Qed.

Lemma put_nowait_except_full_drops (q : Queue.t A) (x : A) :
  Queue.full q = true -> Queue.put_nowait_except_full q x = Returns q.
Proof.
  intros H; unfold Queue.put_nowait_except_full.
  rewrite (put_nowait_full q x H); reflexivity.
Qed.

(** The idiom never lets an exception through, and never changes the
    capacity. *)
Lemma put_nowait_except_full_returns (q : Queue.t A) (x : A) :
  exists q', Queue.put_nowait_except_full q x = Returns q'
             /\ Queue.maxsize q' = Queue.maxsize q.
Proof.
  unfold Queue.put_nowait_except_full, Queue.put_nowait.
  destruct (Queue.full q); eexists; split; reflexivity.
Qed.

Lemma full_iff (q : Queue.t A) (n : nat) :
  Queue.maxsize q = Z.of_nat (S n) ->
  (Queue.full q = true <-> (S n <= length (Queue.items q))%nat).
Proof.
  intros H; unfold Queue.full, Queue.qsize; rewrite H.
  rewrite andb_true_iff, Z.ltb_lt, Z.leb_le; lia.
Qed.

End Queues.

(** ** The vision stage *)

Section Vision.

Import PoseDetector.

(** On the two-coordinate slices of keypoints the angle is always
    computed, so an arm block raises nothing; it leaves the sway entry of
    the bundle alone. *)
Lemma arm_block_returns (side : R -> Z * Z -> Text)
    (store : PoseData -> R -> PoseData) (hip shoulder elbow : Keypoint)
    (loc : Locals) :
  (forall d v, hip_sway (store d v) = hip_sway d) ->
  exists loc', arm_block side store hip shoulder elbow loc = (None, loc')
               /\ hip_sway (snd loc') = hip_sway (snd loc).
Proof.
  intros Hstore; unfold arm_block.
  destruct (confident hip && confident shoulder && confident elbow);
    [|eexists; split; reflexivity].
  destruct (calculate_angle_cases (position hip) (position shoulder)
              (position elbow) eq_refl eq_refl) as [[_ E]|(_ & _ & _ & E)];
    rewrite E; eexists; (split; [reflexivity | apply Hstore]).
Qed.

(** How the [try] block ends, told by the raw sway of the frame. *)
Lemma try_block_spec (st : State) (kps : Keypoints) (loc : Locals) :
  match try_block st kps loc with
  | Continue => kps = KeypointsData []
  | Finished _ st' loc' =>
      match raw_sway kps with
      | Some raw =>
          st' = (if calibrate_event st then calibrate st raw else st)
          /\ hip_sway (snd loc') = Some (raw - pose_zero_offsets st')
      | None => st' = st /\ hip_sway (snd loc') = hip_sway (snd loc)
      end
  end.
Proof.
  destruct kps as [|[|person others]]; cbn; auto.
  destruct (six_keypoints person)
    as [[[[[[l_hip r_hip] l_shoulder] r_shoulder] l_elbow] r_elbow]|e];
    cbn; auto.
  destruct (arm_block_returns LeftText set_left_arm l_hip l_shoulder l_elbow
              loc (fun _ _ => eq_refl)) as (loc1 & -> & H1).
  destruct (arm_block_returns RightText set_right_arm r_hip r_shoulder
              r_elbow loc1 (fun _ _ => eq_refl)) as (loc2 & -> & H2).
  unfold hip_sway_block.
  destruct (confident l_hip && confident r_hip
            && confident l_shoulder && confident r_shoulder); cbn.
  - split; reflexivity.
  - split; [reflexivity | congruence].
Qed.

(** A successful read never ends the loop and never raises. *)
Lemma yolo_iteration_frame (st : State) (capture : Capture) :
  yolo_iteration st (Some capture) = Returns (Next, after_frame st capture).
Proof.
  unfold after_frame, yolo_iteration.
  destruct (try_block st (keypoints capture) (plot capture, no_signals))
    as [|raised st' loc]; [reflexivity|].
  destruct (put_nowait_except_full_returns (frame_queue st') loc)
    as (q & -> & _); reflexivity.
Qed.

Lemma after_frame_queue_capacity (st : State) (capture : Capture) :
  Queue.maxsize (frame_queue (after_frame st capture))
    = Queue.maxsize (frame_queue st).
Proof.
  unfold after_frame, yolo_iteration.
  pose proof (try_block_spec st (keypoints capture) (plot capture, no_signals))
    as T.
  destruct (try_block st (keypoints capture) (plot capture, no_signals))
    as [|raised st' loc]; [reflexivity|].
  destruct (put_nowait_except_full_returns (frame_queue st') loc)
    as (q & -> & Hq); cbn. rewrite Hq.
  destruct (raw_sway (keypoints capture)); destruct T as [-> _];
    [destruct (calibrate_event st)|]; reflexivity.
Qed.




End Vision.

Section VisionClaims.

Import PoseDetector.


(** The frames on which no raw sway is computed: no keypoint structure, no
    subject, a keypoint that cannot be read, or a hip or shoulder whose
    confidence does not exceed the threshold. *)
Lemma raw_sway_not_computable (kps : Keypoints) :
  raw_sway kps = None <->
  kps = KeypointsNone
  \/ kps = KeypointsData []
  \/ exists person others, kps = KeypointsData (person :: others) /\
       ((exists e, six_keypoints person = Raises e)
        \/ exists l_hip r_hip l_shoulder r_shoulder l_elbow r_elbow,
             six_keypoints person
               = Returns (l_hip, r_hip, l_shoulder, r_shoulder,
                          l_elbow, r_elbow)
             /\ (kconf l_hip <= CONF_THRESHOLD
                 \/ kconf r_hip <= CONF_THRESHOLD
                 \/ kconf l_shoulder <= CONF_THRESHOLD
                 \/ kconf r_shoulder <= CONF_THRESHOLD)).
Proof.
  split.
  - destruct kps as [|[|person others]]; cbn; auto.
    intros H; right; right; exists person, others; split; [reflexivity|].
    destruct (six_keypoints person)
      as [[[[[[l_hip r_hip] l_shoulder] r_shoulder] l_elbow] r_elbow]|e];
      [right | left; eauto].
    exists l_hip, r_hip, l_shoulder, r_shoulder, l_elbow, r_elbow.
    split; [reflexivity|].
    unfold confident in H.
    destruct (Rlt_dec CONF_THRESHOLD (kconf l_hip)); [|lra].
    destruct (Rlt_dec CONF_THRESHOLD (kconf r_hip)); [|lra].
    destruct (Rlt_dec CONF_THRESHOLD (kconf l_shoulder)); [|lra].
    destruct (Rlt_dec CONF_THRESHOLD (kconf r_shoulder)); [|lra].
    discriminate.
  - intros [->|[->|(person & others & -> & [[e E]|H])]]; cbn; auto.
    + rewrite E; reflexivity.
    + destruct H as (l_hip & r_hip & l_shoulder & r_shoulder & l_elbow
                     & r_elbow & -> & C).
      unfold confident.
      destruct (Rlt_dec CONF_THRESHOLD (kconf l_hip)); [|reflexivity].
      destruct (Rlt_dec CONF_THRESHOLD (kconf r_hip)); [|reflexivity].
      destruct (Rlt_dec CONF_THRESHOLD (kconf l_shoulder)); [|reflexivity].
      destruct (Rlt_dec CONF_THRESHOLD (kconf r_shoulder)); [|reflexivity].
      lra.
Qed.



(** C7: on a frame with zero detected subjects the iteration goes straight
    back to the loop head: nothing is handed to the frame queue and the
    state is left as it was.  The claim asks for the frame to be emitted
    with an all-none bundle. *)
Theorem zero_subjects_frame_is_skipped (st : State) (image : Image) :
  emitted st (mkCapture image (KeypointsData [])) = None
  /\ yolo_iteration st (Some (mkCapture image (KeypointsData [])))
     = Returns (Next, st).
Proof. split; reflexivity. Qed.

(** The neighbouring paths do emit the frame with an all-none bundle: a
    frame whose processing raises, and a frame whose subject is seen with
    too little confidence. *)
Lemma raising_frame_is_emitted (st : State) (image : Image) :
  emitted st (mkCapture image KeypointsNone)
    = Some (mkAnnotated image [], no_signals).
Proof. reflexivity. Qed.

Lemma unsure_subject_frame_is_emitted (st : State) (image : Image) :
  emitted st (mkCapture image
                (KeypointsData [repeat (mkKeypoint 0 0 0) 17]))
    = Some (mkAnnotated image [], no_signals).
Proof.
  unfold emitted, try_block; cbn.
  unfold arm_block, hip_sway_block, confident; cbn.
  destruct (Rlt_dec CONF_THRESHOLD 0) as [L|_]; [|reflexivity].
  unfold CONF_THRESHOLD in L; lra.
Qed.

End VisionClaims.

(** ** The three threads together *)

Section System.

Import RobotController PoseDetector Main.

Lemma after_frame_full_queue (st : PoseDetector.State) (capture : Capture) :
  Queue.full (PoseDetector.frame_queue st) = true ->
  PoseDetector.frame_queue (after_frame st capture)
    = PoseDetector.frame_queue st.
Proof.
  intros Hfull. unfold after_frame, yolo_iteration.
  pose proof (try_block_spec st (keypoints capture) (plot capture, no_signals))
    as T.
  destruct (try_block st (keypoints capture) (plot capture, no_signals))
    as [|raised st' loc]; [reflexivity|].
  assert (Q : PoseDetector.frame_queue st' = PoseDetector.frame_queue st).
  { destruct (raw_sway (keypoints capture)); destruct T as [-> _];
      [destruct (PoseDetector.calibrate_event st)|]; reflexivity. }
  rewrite Q, (put_nowait_except_full_drops _ loc Hfull); cbn. reflexivity.
Qed.

Lemma control_iteration_capacity (st : RobotController.State) :
  Queue.maxsize (RobotController.pose_queue (control_iteration st))
    = Queue.maxsize (RobotController.pose_queue st).
Proof.
  unfold control_iteration, Queue.get.
  destruct (Queue.items (RobotController.pose_queue st)) as [|d rest];
    [reflexivity|].
  cbn [with_pose_queue RobotController.last_head_pose
       RobotController.last_antennas].
  rewrite head_command_spec. unfold Queue.task_done; cbn.
  destruct (Queue.unfinished_tasks (RobotController.pose_queue st));
    reflexivity.
Qed.

(** An iteration of the UI loop: nothing to show, or one frame taken, its
    bundle forwarded or dropped, and the key looked at. *)
Lemma ui_iteration_cases (w : World) (key : Z) :
  (Queue.items (frame_queue w) = [] /\ ui_iteration w key = Returns w)
  \/ exists w', ui_iteration w key = Returns w'
       /\ Queue.maxsize (frame_queue w') = Queue.maxsize (frame_queue w)
       /\ Queue.maxsize (pose_queue w') = Queue.maxsize (pose_queue w)
       /\ (Queue.full (pose_queue w) = true -> pose_queue w' = pose_queue w)
       /\ (calibrate_event w = true -> calibrate_event w' = true)
       /\ pose_zero_offsets w' = pose_zero_offsets w.
Proof.
  unfold ui_iteration, Queue.get.
  destruct (Queue.items (frame_queue w)) as [|[frame data] rest];
    [left; auto | right].
  destruct (put_nowait_except_full_returns (pose_queue w) data)
    as (pq & E & Hpq).
  rewrite E; cbn [bind]. eexists; split; [reflexivity|]; cbn.
  repeat split; auto.
  - intros Hfull. rewrite (put_nowait_except_full_drops _ data Hfull) in E.
    now injection E.
  - intros ->. destruct (Z.land key 255 =? ord_q)%Z; [reflexivity|].
    destruct (Z.land key 255 =? ord_c)%Z; reflexivity.
Qed.

(** No exception escapes an iteration of any of the three loops. *)
Lemma exec_returns (w : World) (ev : Event) :
  exists w', exec w ev = Returns w'.
Proof.
  destruct ev as [[capture|]|key|]; unfold exec.
  - destruct (yolo_running w); [|eexists; reflexivity].
    destruct (stop_signal w); [eexists; reflexivity|].
    rewrite yolo_iteration_frame; cbn [bind]. eexists; reflexivity.
  - destruct (yolo_running w); [|eexists; reflexivity].
    destruct (stop_signal w); eexists; reflexivity.
  - destruct (ui_running w); [|eexists; reflexivity].
    destruct (stop_signal w); [eexists; reflexivity|].
    destruct (ui_iteration_cases w key) as [[_ E]|(w' & E & _)];
      rewrite E; eexists; reflexivity.
  - destruct (reachy_running w); [|eexists; reflexivity].
    destruct (stop_signal w); eexists; reflexivity.
Qed.

Lemma exec_capacities (w w' : World) (ev : Event) :
  exec w ev = Returns w' ->
  Queue.maxsize (frame_queue w') = Queue.maxsize (frame_queue w)
  /\ Queue.maxsize (pose_queue w') = Queue.maxsize (pose_queue w).
Proof.
  destruct ev as [[capture|]|key|]; unfold exec.
  - destruct (yolo_running w); [|intros [= <-]; auto].
    destruct (stop_signal w); [intros [= <-]; auto|].
    rewrite yolo_iteration_frame; cbn [bind]. intros [= <-]; cbn.
    split; [apply after_frame_queue_capacity | reflexivity].
  - destruct (yolo_running w); [|intros [= <-]; auto].
    destruct (stop_signal w); intros [= <-]; auto.
  - destruct (ui_running w); [|intros [= <-]; auto].
    destruct (stop_signal w); [intros [= <-]; auto|].
    destruct (ui_iteration_cases w key) as [[_ E]|(w1 & E & H1 & H2 & _)];
      rewrite E; intros [= <-]; auto.
  - destruct (reachy_running w); [|intros [= <-]; auto].
    destruct (stop_signal w); intros [= <-]; cbn; auto.
    split; [reflexivity|]. apply (control_iteration_capacity (reachy_view w)).
Qed.

Lemma run_capacities (evs : list Event) (w w' : World) :
  run w evs = Returns w' ->
  Queue.maxsize (frame_queue w') = Queue.maxsize (frame_queue w)
  /\ Queue.maxsize (pose_queue w') = Queue.maxsize (pose_queue w).
Proof.
  revert w; induction evs as [|ev evs IH]; intros w; cbn.
  - intros [= <-]; auto.
  - destruct (exec w ev) as [w1|e] eqn:E; cbn; [|discriminate].
    intros H. destruct (IH _ H) as [-> ->]. exact (exec_capacities _ _ _ E).
Qed.


End System.

Section SystemClaims.

Import RobotController PoseDetector Main.

(** C6: in every world the three threads can reach, the frame queue has
    capacity 2 and the signal queue capacity 10; when the frame queue is
    full the vision thread's iteration returns normally with the queue as
    it was, and when the signal queue is full so does the orchestrator's
    forwarding.  The put is [put_nowait], which never waits; the
    [queue.Full] it raises is caught on the spot. *)
Theorem full_queue_put_is_dropped (evs : list Event) (w : World) :
  run start evs = Returns w ->
  Queue.maxsize (frame_queue w) = 2%Z
  /\ Queue.maxsize (pose_queue w) = 10%Z
  /\ (Queue.full (frame_queue w) = true ->
      forall capture, exists st',
        yolo_iteration (yolo_view w) (Some capture) = Returns (Next, st')
        /\ PoseDetector.frame_queue st' = frame_queue w)
  /\ (Queue.full (pose_queue w) = true ->
      forall key, exists w',
        ui_iteration w key = Returns w'
        /\ pose_queue w' = pose_queue w).
Proof.
  intros Hrun.
  destruct (run_capacities evs start w Hrun) as [Hf Hp].
  repeat split; auto.
  - intros Hfull capture. eexists; split; [apply yolo_iteration_frame|].
    apply (after_frame_full_queue (yolo_view w) capture Hfull).
  - intros Hfull key.
    destruct (ui_iteration_cases w key) as [[_ E]|(w' & E & _ & _ & H & _)].
    + exists w; auto.
    + exists w'; auto.
Qed.

Lemma full_queue_put_is_dropped_witness :
  exists w,
    run start two_unread_frames = Returns w
    /\ Queue.full (frame_queue w) = true
    /\ Queue.maxsize (frame_queue w) = 2%Z
    /\ Queue.maxsize (pose_queue w) = 10%Z
    /\ (Queue.full (frame_queue w) = true ->
        forall capture, exists st',
          yolo_iteration (yolo_view w) (Some capture) = Returns (Next, st')
          /\ PoseDetector.frame_queue st' = frame_queue w)
    /\ (Queue.full (pose_queue w) = true ->
        forall key, exists w',
          ui_iteration w key = Returns w'
          /\ pose_queue w' = pose_queue w).
Proof.
  eexists. split; [reflexivity|]. split; [reflexivity|].
  apply (full_queue_put_is_dropped two_unread_frames). reflexivity.
Defined.



End SystemClaims.

(** * Further properties of the code *)

(** ** [calculate_angle] *)

Section Angles.

Import Np.

Lemma sub_raises (a b : array) (e : exn) :
  sub a b = Raises e -> e = ValueError.
Proof.
  unfold sub. destruct (Nat.eqb (length a) (length b)); [discriminate|].
  destruct a as [|x [|x' a]]; destruct b as [|y [|y' b]]; cbn;
    congruence.
Qed.

Lemma sum_products_comm (a b : array) :
  sum (zip_with Rmult a b) = sum (zip_with Rmult b a).
Proof.
  revert b; induction a as [|x a IH]; intros [|y b]; cbn; auto.
  rewrite (Rmult_comm x y). f_equal. apply IH.
Qed.

Lemma dot_comm (a b : array) : dot a b = dot b a.
Proof.
  unfold dot. rewrite (Nat.eqb_sym (length b) (length a)).
  destruct (Nat.eqb (length a) (length b)); [|reflexivity].
  now rewrite sum_products_comm.
Qed.

Lemma zip_sub_translated (a b t : array) :
  length a = length t -> length b = length t ->
  zip_with Rminus (zip_with Rplus a t) (zip_with Rplus b t)
    = zip_with Rminus a b.
Proof.
  revert b t; induction a as [|x a IH]; intros [|y b] [|z t] Ha Hb;
    cbn in *; try discriminate; auto.
  rewrite IH by congruence. f_equal; lra.
Qed.

End Angles.

(** X1: the angle at the vertex does not depend on the order of the two
    outer points, and neither does the way the function fails: for all
    arrays, [calculate_angle a b c] and [calculate_angle c b a] are the same
    result or the same exception. *)
Theorem calculate_angle_symmetric (a b c : Np.array) :
  Utils.calculate_angle a b c = Utils.calculate_angle c b a.
Proof.
  unfold Utils.calculate_angle.
  destruct (Np.sub a b) as [ba|e1] eqn:E1;
    destruct (Np.sub c b) as [bc|e2] eqn:E2; cbn [bind].
  - destruct (Req_dec_T (Np.norm ba) 0); destruct (Req_dec_T (Np.norm bc) 0);
      try reflexivity.
    rewrite (dot_comm bc ba), (Rmult_comm (Np.norm bc) (Np.norm ba)).
    reflexivity.
  - reflexivity.
  - reflexivity.
  - now rewrite (sub_raises _ _ _ E1), (sub_raises _ _ _ E2).
Qed.

Lemma collinear_point_angle :
  Utils.calculate_angle [0; 0] [0; 0] [1; 1] = Returns 0.
Proof.
  destruct (calculate_angle_cases [0; 0] [0; 0] [1; 1] eq_refl eq_refl)
    as [[_ E]|(N & _)]; [exact E|].
  exfalso; apply N. apply (norm_sub_self [0; 0]).
Qed.

(** X2: whatever the arrays, a value returned by [calculate_angle] lies
    between 0 and pi. *)
Theorem calculate_angle_between_0_and_pi (a b c : Np.array) (v : R) :
  Utils.calculate_angle a b c = Returns v -> 0 <= v <= PI.
Proof.
  unfold Utils.calculate_angle.
  destruct (Np.sub a b) as [ba|e1]; [|discriminate].
  destruct (Np.sub c b) as [bc|e2]; [|discriminate]. cbn [bind].
  assert (Z : 0 <= 0 <= PI) by (split; [lra | left; apply PI_RGT_0]).
  destruct (Req_dec_T (Np.norm ba) 0); [intros [= <-]; exact Z|].
  destruct (Req_dec_T (Np.norm bc) 0); [intros [= <-]; exact Z|].
  destruct (Np.dot ba bc) as [d|e3]; [|discriminate]. cbn [bind].
  destruct (Np.divide d (Np.norm ba * Np.norm bc)) as [q|e4]; [|discriminate].
  cbn [bind]. unfold Np.arccos.
  destruct (Rle_dec (-1) (Np.clip q (-1) 1)); [|discriminate].
  destruct (Rle_dec (Np.clip q (-1) 1) 1); [|discriminate].
  cbn [bind]. intros [= <-]. apply acos_bound.
Qed.

Lemma calculate_angle_between_0_and_pi_witness : 0 <= 0 <= PI.
Proof.
  exact (calculate_angle_between_0_and_pi [0; 0] [0; 0] [1; 1] 0
           collinear_point_angle).
Defined.

(** X3: points whose numbers of coordinates differ (and are not 1, which
    numpy would broadcast) are refused: when that is the case of [a] and
    [b], or of [c] and [b], [calculate_angle] raises [ValueError]. *)
Theorem calculate_angle_shape_mismatch (a b c : Np.array) :
  (length a <> length b /\ length a <> 1%nat /\ length b <> 1%nat)
  \/ (length c <> length b /\ length c <> 1%nat /\ length b <> 1%nat) ->
  Utils.calculate_angle a b c = Raises ValueError.
Proof.
  assert (M : forall x y : Np.array,
             length x <> length y -> length x <> 1%nat -> length y <> 1%nat ->
             Np.sub x y = Raises ValueError).
  { intros x y H1 H2 H3. unfold Np.sub.
    apply Nat.eqb_neq in H1; rewrite H1.
    destruct x as [|x0 [|x1 x]]; destruct y as [|y0 [|y1 y]]; cbn in *;
      try reflexivity; congruence. }
  unfold Utils.calculate_angle.
  intros [(H1 & H2 & H3)|(H1 & H2 & H3)].
  - rewrite (M a b H1 H2 H3); reflexivity.
  - rewrite (M c b H1 H2 H3).
    destruct (Np.sub a b) as [ba|e] eqn:E; cbn [bind]; [reflexivity|].
    now rewrite (sub_raises _ _ _ E).
Qed.

Lemma calculate_angle_shape_mismatch_witness :
  Utils.calculate_angle [1; 0] [0; 0; 0] [0; 1; 0] = Raises ValueError.
Proof.
  apply (calculate_angle_shape_mismatch [1; 0] [0; 0; 0] [0; 1; 0]).
  left; cbn; repeat split; discriminate.
Defined.

(** X4: only relative positions matter: moving the three points by one
    and the same vector leaves the angle unchanged. *)
Theorem calculate_angle_translation (a b c t : Np.array) :
  length a = length t -> length b = length t -> length c = length t ->
  Utils.calculate_angle (Np.zip_with Rplus a t) (Np.zip_with Rplus b t)
                        (Np.zip_with Rplus c t)
  = Utils.calculate_angle a b c.
Proof.
  intros Ha Hb Hc. unfold Utils.calculate_angle.
  rewrite !sub_same_shape
    by (rewrite ?length_zip_with; rewrite ?Ha, ?Hb, ?Hc, ?Nat.min_id; reflexivity).
  rewrite !zip_sub_translated by assumption. reflexivity.
Qed.

Lemma calculate_angle_translation_witness :
  Utils.calculate_angle (Np.zip_with Rplus [1; 0] [5; 7])
                        (Np.zip_with Rplus [0; 0] [5; 7])
                        (Np.zip_with Rplus [0; 1] [5; 7])
  = Utils.calculate_angle [1; 0] [0; 0] [0; 1].
Proof.
  apply (calculate_angle_translation [1; 0] [0; 0] [0; 1] [5; 7]);
    reflexivity.
Defined.

(** ** The control loop *)

Section ControlLoop.

Import RobotController Runs.

Lemma spec_lateral_slope (s : R) :
  spec_lateral s = Rmax (-35) (Rmin 35 (- (7 / 16) * s)).
Proof. unfold spec_lateral. now rewrite spec_line_slope. Qed.

Lemma spec_lateral_between (s : R) : -35 <= spec_lateral s <= 35.
Proof.
  rewrite spec_lateral_slope. unfold Rmin, Rmax.
  destruct (Rle_dec 35 (- (7 / 16) * s));
    [destruct (Rle_dec (-35) 35) | destruct (Rle_dec (-35) (- (7 / 16) * s))];
    lra.
Qed.

(** What a run of the controller keeps true of the pose it holds and of the
    targets it has streamed. *)
Lemma limits_kept (st : State) :
  reachable st ->
  Rabs (y_mm (last_head_pose st)) <= HEAD_Y_MM_MAX
  /\ forall h a, In (SetTarget h a) (mini st) ->
                 Rabs (y_mm h) <= HEAD_Y_MM_MAX.
Proof.
  unfold HEAD_Y_MM_MAX.
  induction 1 as [m q s Hm|st Hr [IH1 IH2] Hs|st d Hr IH|st Hr IH]; cbn.
  - split; [rewrite Rabs_R0; lra|].
    intros h a Hin. rewrite forallb_forall in Hm.
    specialize (Hm _ Hin); discriminate.
  - destruct (Queue.items (pose_queue st)) as [|d rest] eqn:Hq.
    + rewrite (control_iteration_idle st Hq); auto.
    + destruct (control_iteration_sends st d rest Hq) as (-> & -> & _).
      assert (B : Rabs (y_mm match hip_sway d with
                               | Some s => create_head_pose (spec_lateral s)
                               | None => last_head_pose st
                               end) <= 35).
      { destruct (hip_sway d) as [s|]; [|exact IH1].
        cbn. apply Rabs_le, spec_lateral_between. }
      split; [exact B|].
      intros h a Hin. apply in_app_or in Hin as [Hin|[Hin|[]]]; [eauto|].
      injection Hin as <- _. exact B.
  - unfold forwarded.
    destruct (Queue.put_nowait_except_full _ _); exact IH.
  - exact IH.
Qed.

(** X5: throughout a run of the controller, whatever bundles it is fed whose
    hip sway, when there is one, is a number, every target streamed to the
    robot has a lateral displacement of at most 35 mm in magnitude.  (A NaN
    sway is outside this statement: it would go through [np.interp] and
    [np.clip] unclamped, see [F64.head_y_cmd].) *)
Theorem streamed_lateral_within_limit (st : State) (h : HeadPose)
    (a : R * R) :
  reachable st ->
  In (SetTarget h a) (mini st) ->
  Rabs (y_mm h) <= HEAD_Y_MM_MAX.
Proof.
  intros Hr Hin. exact (proj2 (limits_kept st Hr) h a Hin).
Qed.

Lemma streamed_lateral_within_limit_witness :
  Rabs (y_mm (create_head_pose (spec_lateral 200))) <= HEAD_Y_MM_MAX.
Proof.
  apply (streamed_lateral_within_limit
           (control_iteration
              (init [] (Queue.mk 10 [mkPoseData None None (Some 200)] 1) false))
           (create_head_pose (spec_lateral 200)) (0, 0)).
  - apply reach_iteration; [apply reach_init|]; reflexivity.
  - rewrite (proj1 (control_iteration_sends
                      (init [] (Queue.mk 10 [mkPoseData None None (Some 200)] 1)
                            false)
                      (mkPoseData None None (Some 200)) [] eq_refl)).
    left; reflexivity.
Defined.

(** X6: the head mirrors the operator: of two hip sways, the one further to
    the right never gives the larger lateral command. *)
Theorem head_command_mirrors (last : HeadPose) (d1 d2 : PoseData)
    (s1 s2 : R) :
  hip_sway d1 = Some s1 -> hip_sway d2 = Some s2 -> s1 <= s2 ->
  exists y1 y2,
    head_command last d1 = Returns (create_head_pose y1)
    /\ head_command last d2 = Returns (create_head_pose y2)
    /\ y2 <= y1.
Proof.
  intros H1 H2 Hle.
  exists (spec_lateral s1), (spec_lateral s2).
  rewrite !head_command_spec, H1, H2. repeat split.
  rewrite !spec_lateral_slope. unfold Rmin, Rmax.
  destruct (Rle_dec 35 (- (7 / 16) * s1)); destruct (Rle_dec 35 (- (7 / 16) * s2));
    repeat match goal with
           | |- context [Rle_dec ?x ?y] => destruct (Rle_dec x y)
           end; lra.
Qed.

Lemma head_command_mirrors_witness :
  exists y1 y2,
    head_command (create_head_pose 0) (mkPoseData None None (Some (-10)))
      = Returns (create_head_pose y1)
    /\ head_command (create_head_pose 0) (mkPoseData None None (Some 20))
       = Returns (create_head_pose y2)
    /\ y2 <= y1.
Proof.
  apply (head_command_mirrors (create_head_pose 0)
           (mkPoseData None None (Some (-10))) (mkPoseData None None (Some 20))
           (-10) 20); [reflexivity | reflexivity | lra].
Defined.

(** X7: the mapping is odd: opposite hip sways give opposite lateral
    commands. *)
Theorem head_command_odd (last : HeadPose) (d1 d2 : PoseData) (s : R) :
  hip_sway d1 = Some s -> hip_sway d2 = Some (- s) ->
  exists y,
    head_command last d1 = Returns (create_head_pose y)
    /\ head_command last d2 = Returns (create_head_pose (- y)).
Proof.
  intros H1 H2. exists (spec_lateral s).
  rewrite !head_command_spec, H1, H2. split; [reflexivity|].
  do 2 f_equal. rewrite !spec_lateral_slope. unfold Rmin, Rmax.
  destruct (Rle_dec 35 (- (7 / 16) * - s)); destruct (Rle_dec 35 (- (7 / 16) * s));
    repeat match goal with
           | |- context [Rle_dec ?x ?y] => destruct (Rle_dec x y)
           end; lra.
Qed.

Lemma head_command_odd_witness :
  exists y,
    head_command (create_head_pose 0) (mkPoseData None None (Some 40))
      = Returns (create_head_pose y)
    /\ head_command (create_head_pose 0) (mkPoseData None None (Some (- 40)))
       = Returns (create_head_pose (- y)).
Proof.
  apply (head_command_odd (create_head_pose 0)
           (mkPoseData None None (Some 40)) (mkPoseData None None (Some (- 40)))
           40); reflexivity.
Defined.

Lemma control_iterations_drain (ds : list PoseData) (st : State) :
  Queue.items (pose_queue st) = ds ->
  mini (control_iterations (length ds) st)
    = mini st ++ targets_for (last_head_pose st, last_antennas st) ds
  /\ Queue.items (pose_queue (control_iterations (length ds) st)) = [].
Proof.
  revert st; induction ds as [|d ds IH]; intros st Hq; cbn.
  - rewrite app_nil_r; auto.
  - destruct (control_iteration_sends st d ds Hq) as (Hm & Hh & Ha & Hq').
    destruct (IH _ Hq') as [I1 I2]. split; [|exact I2].
    rewrite I1, Hm, Hh, Ha, <- app_assoc. reflexivity.
Qed.

(** X8: the controller answers every bundle with exactly one target, in the
    order of the queue: as many passes as there are bundles waiting empty the
    queue and stream, one after the other, the targets those bundles ask
    for, each computed from the one before it. *)
Theorem control_loop_drains_queue (st : State) :
  mini (control_iterations (length (Queue.items (pose_queue st))) st)
    = mini st
      ++ targets_for (last_head_pose st, last_antennas st)
                     (Queue.items (pose_queue st))
  /\ Queue.items
       (pose_queue (control_iterations (length (Queue.items (pose_queue st))) st))
     = [].
Proof. apply control_iterations_drain; reflexivity. Qed.

End ControlLoop.

(** ** The vision loop *)

Section VisionLoop.

Import PoseDetector Runs.

(** An arm block stores an angle exactly when its three keypoints are
    confident, and that angle is between 0 and pi. *)
Lemma arm_block_cases (side : R -> Z * Z -> Text)
    (store : PoseData -> R -> PoseData) (hip shoulder elbow : Keypoint)
    (loc : Locals) :
  (confident hip && confident shoulder && confident elbow = false
   /\ arm_block side store hip shoulder elbow loc = (None, loc))
  \/ (confident hip && confident shoulder && confident elbow = true
      /\ exists v frame,
           0 <= v <= PI
           /\ arm_block side store hip shoulder elbow loc
              = (None, (frame, store (snd loc) v))).
Proof.
  unfold arm_block.
  destruct (confident hip && confident shoulder && confident elbow);
    [right | left; auto].
  split; [reflexivity|].
  destruct (calculate_angle_cases (position hip) (position shoulder)
              (position elbow) eq_refl eq_refl) as [[_ E]|(_ & _ & _ & E)];
    rewrite E; eexists; eexists; (split; [|reflexivity]).
  - split; [lra | left; apply PI_RGT_0].
  - apply acos_bound.
Qed.

(** The bundle a frame with a readable first subject ends up with. *)
Lemma try_block_bundle (st : State) (person : list Keypoint)
    (others : list (list Keypoint)) (frame : AnnotatedFrame)
    (l_hip r_hip l_shoulder r_shoulder l_elbow r_elbow : Keypoint) :
  six_keypoints person
    = Returns (l_hip, r_hip, l_shoulder, r_shoulder, l_elbow, r_elbow) ->
  exists st' frame' d,
    try_block st (KeypointsData (person :: others)) (frame, no_signals)
      = Finished None st' (frame', d)
    /\ (left_arm d <> None <->
        confident l_hip && confident l_shoulder && confident l_elbow = true)
    /\ (right_arm d <> None <->
        confident r_hip && confident r_shoulder && confident r_elbow = true)
    /\ (hip_sway d <> None <->
        confident l_hip && confident r_hip
        && confident l_shoulder && confident r_shoulder = true)
    /\ angles_in_range d.
Proof.
  intros H6. unfold try_block; rewrite H6.
  destruct (arm_block_cases LeftText set_left_arm l_hip l_shoulder l_elbow
              (frame, no_signals)) as [[CL ->]|(CL & vl & fl & RL & ->)];
    rewrite CL;
    [destruct (arm_block_cases RightText set_right_arm r_hip r_shoulder
                 r_elbow (frame, no_signals))
       as [[CR ->]|(CR & vr & fr & RR & ->)]
    |destruct (arm_block_cases RightText set_right_arm r_hip r_shoulder
                 r_elbow (fl, set_left_arm (snd (frame, no_signals)) vl))
       as [[CR ->]|(CR & vr & fr & RR & ->)]];
    rewrite CR; unfold hip_sway_block;
    destruct (confident l_hip && confident r_hip
              && confident l_shoulder && confident r_shoulder);
    cbn; do 3 eexists; (split; [reflexivity|]); cbn;
    unfold angles_in_range; cbn;
    repeat split; try congruence; try discriminate;
    match goal with
    | H : Some _ = Some _ |- _ => injection H as <-
    end; lra.
Qed.

Lemma emitted_angles_in_range (st : State) (capture : Capture)
    (frame : AnnotatedFrame) (d : PoseData) :
  emitted st capture = Some (frame, d) -> angles_in_range d.
Proof.
  unfold emitted.
  destruct (keypoints capture) as [|[|person others]] eqn:K.
  - cbn. intros [= _ <-]. split; intros v; discriminate.
  - cbn. discriminate.
  - destruct (six_keypoints person)
      as [[[[[[l_hip r_hip] l_shoulder] r_shoulder] l_elbow] r_elbow]|e]
      eqn:H6.
    + destruct (try_block_bundle st person others (plot capture) _ _ _ _ _ _ H6)
        as (st' & frame' & d' & -> & _ & _ & _ & A).
      intros [= _ <-]; exact A.
    + unfold try_block; rewrite H6. intros [= _ <-].
      split; intros v; discriminate.
Qed.

(** A frame leaves the stop flag alone, and its queue is the old one or the
    old one after the put of what the frame emits. *)
Lemma after_frame_cases (st : State) (capture : Capture) :
  stop_event (after_frame st capture) = stop_event st
  /\ (frame_queue (after_frame st capture) = frame_queue st
      \/ exists loc,
           emitted st capture = Some loc
           /\ Queue.put_nowait_except_full (frame_queue st) loc
              = Returns (frame_queue (after_frame st capture))).
Proof.
  unfold after_frame, yolo_iteration, emitted.
  pose proof (try_block_spec st (keypoints capture) (plot capture, no_signals))
    as T.
  destruct (try_block st (keypoints capture) (plot capture, no_signals))
    as [|raised st' loc]; [auto|].
  assert (Q : frame_queue st' = frame_queue st /\ stop_event st' = stop_event st).
  { destruct (raw_sway (keypoints capture)); destruct T as [-> _];
      [destruct (calibrate_event st)|]; split; reflexivity. }
  destruct Q as [Q1 Q2].
  destruct (put_nowait_except_full_returns (frame_queue st') loc)
    as (q & E & _).
  rewrite E; cbn. split; [exact Q2|].
  right; exists loc; split; [reflexivity|]. now rewrite <- Q1.
Qed.

Lemma yolo_frames_all (caps : list Capture) (st : State) :
  stop_event st = false ->
  yolo_frames st (map Some caps) = Returns (fold_left after_frame caps st).
Proof.
  revert st; induction caps as [|c caps IH]; intros st Hs;
    cbn [map yolo_frames fold_left]; [reflexivity|].
  rewrite Hs, yolo_iteration_frame; cbn [bind].
  apply IH. now rewrite (proj1 (after_frame_cases st c)).
Qed.

(** X9: for a frame whose first subject has its six keypoints, the bundle
    handed to the frame queue has a left arm angle exactly when left hip,
    shoulder and elbow are all above the confidence threshold; a right arm
    angle or a hip sway only when the keypoints they use are above it; and,
    as long as the labels of the arm blocks before them can be drawn (their
    text origins fit C ints, so that [cv2.putText] does not raise and end
    the [try] block early), a right arm angle and a hip sway whenever those
    keypoints are above it.  The arm angles it has are between 0 and pi. *)
Theorem bundle_fields_follow_confidence (st : State) (capture : Capture)
    (person : list Keypoint) (others : list (list Keypoint))
    (l_hip r_hip l_shoulder r_shoulder l_elbow r_elbow : Keypoint) :
  keypoints capture = KeypointsData (person :: others) ->
  six_keypoints person
    = Returns (l_hip, r_hip, l_shoulder, r_shoulder, l_elbow, r_elbow) ->
  let left_confident :=
    confident l_hip && confident l_shoulder && confident l_elbow in
  let right_confident :=
    confident r_hip && confident r_shoulder && confident r_elbow in
  let sway_confident :=
    confident l_hip && confident r_hip
    && confident l_shoulder && confident r_shoulder in
  let left_drawn := left_confident = true -> Labels.drawable l_shoulder in
  let right_drawn := right_confident = true -> Labels.drawable r_shoulder in
  exists frame d,
    emitted st capture = Some (frame, d)
    /\ (left_arm d <> None <-> left_confident = true)
    /\ (right_arm d <> None -> right_confident = true)
    /\ (hip_sway d <> None -> sway_confident = true)
    /\ (left_drawn -> right_confident = true -> right_arm d <> None)
    /\ (left_drawn -> right_drawn -> sway_confident = true ->
        hip_sway d <> None)
    /\ angles_in_range d.
Proof.
  intros K H6 LC RC SC LD RD. unfold emitted; rewrite K.
  destruct (try_block_bundle st person others (plot capture) _ _ _ _ _ _ H6)
    as (st' & frame' & d & -> & PL & PR & PS & A).
  exists frame', d; split; [reflexivity|].
  split; [exact PL|]. split; [apply PR|]. split; [apply PS|].
  split; [intros _ H; apply PR; exact H|].
  split; [intros _ _ H; apply PS; exact H|].
  exact A.
Qed.

Lemma six_keypoints_subject (shoulder_x hip_x : R) :
  six_keypoints (subject shoulder_x hip_x)
  = Returns (mkKeypoint hip_x 0 (9 / 10), mkKeypoint hip_x 0 (9 / 10),
             mkKeypoint shoulder_x 0 (9 / 10), mkKeypoint shoulder_x 0 (9 / 10),
             mkKeypoint shoulder_x 0 (9 / 10), mkKeypoint shoulder_x 0 (9 / 10)).
Proof. reflexivity. Qed.

Lemma py_int_of_integer (r : R) (z : Z) : r = IZR z -> py_int r = z.
Proof.
  assert (I : forall k : Z, Int_part (IZR k) = k).
  { intros k. unfold Int_part.
    assert (U : (k + 1)%Z = up (IZR k))
      by (apply tech_up; rewrite plus_IZR; lra).
    rewrite <- U. lia. }
  intros ->. unfold py_int.
  destruct (Rle_dec 0 (IZR z)); [apply I|].
  rewrite <- opp_IZR, I. lia.
Qed.

Lemma drawable_at_origin : Labels.drawable (mkKeypoint 0 0 (9 / 10)).
Proof.
  unfold Labels.drawable, Labels.fits_c_int; cbn [kx ky].
  rewrite (py_int_of_integer 0 0 eq_refl).
  rewrite (py_int_of_integer (0 - 10) (-10)) by (rewrite <- minus_IZR; reflexivity).
  lia.
Qed.

Lemma bundle_fields_follow_confidence_witness :
  exists frame d,
    emitted (Main.yolo_view Main.start)
            (mkCapture 0%nat (KeypointsData [subject 0 40]))
      = Some (frame, d)
    /\ right_arm d <> None
    /\ hip_sway d <> None.
Proof.
  destruct (bundle_fields_follow_confidence (Main.yolo_view Main.start)
              (mkCapture 0%nat (KeypointsData [subject 0 40]))
              (subject 0 40) [] _ _ _ _ _ _ eq_refl
              (six_keypoints_subject 0 40))
    as (frame & d & E & _ & _ & _ & R & S & _).
  assert (C : confident (mkKeypoint 0 0 (9 / 10)) = true
              /\ confident (mkKeypoint 40 0 (9 / 10)) = true).
  { unfold confident, CONF_THRESHOLD; cbn [kconf].
    destruct (Rlt_dec (5 / 10) (9 / 10)); [auto | lra]. }
  destruct C as [C0 C40].
  exists frame, d. split; [exact E|]. split.
  - apply R; [intros _; exact drawable_at_origin|].
    now rewrite C40, C0.
  - apply S; try (intros _; exact drawable_at_origin).
    now rewrite C40, C0.
Defined.

(** X10: no frame can end the vision loop.  While the stop flag is down, a
    run of successful reads is processed to its end, frame after frame,
    whatever the detector returned on them (nothing, nobody, a subject with
    missing keypoints), and no exception leaves the loop. *)
Theorem vision_loop_survives_every_frame (caps : list Capture) (st : State) :
  stop_event st = false ->
  yolo_frames st (map Some caps) = Returns (fold_left after_frame caps st)
  /\ stop_event (fold_left after_frame caps st) = false.
Proof.
  intros Hs. split; [apply yolo_frames_all; exact Hs|].
  revert st Hs; induction caps as [|c caps IH]; intros st Hs; cbn; [exact Hs|].
  apply IH. now rewrite (proj1 (after_frame_cases st c)).
Qed.

Lemma vision_loop_survives_every_frame_witness :
  yolo_frames (Main.yolo_view Main.start)
    (map Some [mkCapture 0%nat KeypointsNone;
               mkCapture 1%nat (KeypointsData []);
               mkCapture 2%nat (KeypointsData [[]])])
  = Returns
      (fold_left after_frame
         [mkCapture 0%nat KeypointsNone; mkCapture 1%nat (KeypointsData []);
          mkCapture 2%nat (KeypointsData [[]])]
         (Main.yolo_view Main.start))
  /\ stop_event
       (fold_left after_frame
          [mkCapture 0%nat KeypointsNone; mkCapture 1%nat (KeypointsData []);
           mkCapture 2%nat (KeypointsData [[]])]
          (Main.yolo_view Main.start)) = false.
Proof.
  apply (vision_loop_survives_every_frame
           [mkCapture 0%nat KeypointsNone; mkCapture 1%nat (KeypointsData []);
            mkCapture 2%nat (KeypointsData [[]])]
           (Main.yolo_view Main.start)).
  reflexivity.
Defined.

(** X11: a failed read ends the vision loop for good and in silence: the
    frames before it are processed, the reads after it are never looked at,
    and the worker leaves with the stop flag still down, so the other
    threads are not told. *)
Theorem failed_read_ends_vision_loop (caps : list Capture)
    (rest : list (option Capture)) (st : State) :
  stop_event st = false ->
  exists st',
    yolo_loop true st (map Some caps ++ None :: rest) = Returns st'
    /\ st' = print (print (fold_left after_frame caps st) FailedToReadFrame)
                   LoopStopping
    /\ stop_event st' = false.
Proof.
  intros Hs. eexists; split; [|split; [reflexivity|]].
  - unfold yolo_loop.
    assert (E : forall caps st, stop_event st = false ->
              yolo_frames st (map Some caps ++ None :: rest)
              = Returns (print (fold_left after_frame caps st) FailedToReadFrame)).
    { clear. induction caps as [|c caps IH]; intros st Hs;
        cbn [map app yolo_frames fold_left].
      - rewrite Hs. reflexivity.
      - rewrite Hs, yolo_iteration_frame; cbn [bind].
        apply IH. now rewrite (proj1 (after_frame_cases st c)). }
    rewrite (E caps st Hs). reflexivity.
  - cbn. clear rest.
    revert st Hs; induction caps as [|c caps IH]; intros st Hs; cbn; [exact Hs|].
    apply IH. now rewrite (proj1 (after_frame_cases st c)).
Qed.

Lemma failed_read_ends_vision_loop_witness :
  exists st',
    yolo_loop true (Main.yolo_view Main.start)
      (map Some [mkCapture 0%nat KeypointsNone] ++ None
       :: [Some (mkCapture 1%nat KeypointsNone)]) = Returns st'
    /\ st' = print (print (fold_left after_frame [mkCapture 0%nat KeypointsNone]
                             (Main.yolo_view Main.start))
                      FailedToReadFrame) LoopStopping
    /\ stop_event st' = false.
Proof.
  apply (failed_read_ends_vision_loop [mkCapture 0%nat KeypointsNone]
           [Some (mkCapture 1%nat KeypointsNone)] (Main.yolo_view Main.start)).
  reflexivity.
Defined.

End VisionLoop.

(** ** The world the threads share *)

Section World.

Import RobotController PoseDetector Main Runs.

Lemma put_cases {A : Type} (q q' : Queue.t A) (x : A) :
  Queue.put_nowait_except_full q x = Returns q' ->
  (Queue.full q = true /\ q' = q)
  \/ (Queue.full q = false
      /\ q' = Queue.mk (Queue.maxsize q) (Queue.items q ++ [x])
                       (S (Queue.unfinished_tasks q))).
Proof.
  unfold Queue.put_nowait_except_full, Queue.put_nowait.
  destruct (Queue.full q); intros [= <-]; auto.
Qed.

Lemma room_left {A : Type} (q : Queue.t A) (n : nat) :
  Queue.maxsize q = Z.of_nat (S n) -> Queue.full q = false ->
  (length (Queue.items q) <= n)%nat.
Proof.
  intros Hm Hf.
  destruct (le_lt_dec (S n) (length (Queue.items q))) as [L|L]; [|lia].
  apply (full_iff q n Hm) in L. congruence.
Qed.

(** An iteration of the UI loop that finds a frame. *)
Lemma ui_iteration_frame (w : World) (key : Z) (frame : AnnotatedFrame)
    (d : PoseData) (rest : list (AnnotatedFrame * PoseData)) :
  Queue.items (frame_queue w) = (frame, d) :: rest ->
  exists pq,
    Queue.put_nowait_except_full (pose_queue w) d = Returns pq
    /\ ui_iteration w key
       = Returns
           (mkWorld
              (Queue.mk (Queue.maxsize (frame_queue w)) rest
                        (Queue.unfinished_tasks (frame_queue w)))
              pq
              (if (Z.land key 255 =? ord_q)%Z then true else stop_signal w)
              (if (Z.land key 255 =? ord_q)%Z then calibrate_event w
               else if (Z.land key 255 =? ord_c)%Z then true
                    else calibrate_event w)
              (pose_zero_offsets w) (mini w) (last_head_pose w)
              (last_antennas w) (window w ++ [frame]) (yolo_stdout w)
              (reachy_stdout w) (yolo_running w) (reachy_running w)
              (negb (Z.land key 255 =? ord_q)%Z)).
Proof.
  intros Hq. unfold ui_iteration, Queue.get; rewrite Hq.
  destruct (put_nowait_except_full_returns (pose_queue w) d) as (pq & E & _).
  exists pq; split; [exact E|]. rewrite E; reflexivity.
Qed.

Lemma ui_iteration_empty (w : World) (key : Z) :
  Queue.items (frame_queue w) = [] -> ui_iteration w key = Returns w.
Proof.
  intros Hq. unfold ui_iteration, Queue.get; rewrite Hq; reflexivity.
Qed.

(** A control cycle on a bundle that was counted when it was put. *)
Lemma control_iteration_counted (st : RobotController.State) (d : PoseData)
    (rest : list PoseData) (n : nat) :
  Queue.items (RobotController.pose_queue st) = d :: rest ->
  Queue.unfinished_tasks (RobotController.pose_queue st) = S n ->
  control_iteration st
  = RobotController.mkState
      (RobotController.mini st
       ++ [SetTarget
             (fst (target_for (RobotController.last_head_pose st,
                               RobotController.last_antennas st) d))
             (snd (target_for (RobotController.last_head_pose st,
                               RobotController.last_antennas st) d))])
      (Queue.mk (Queue.maxsize (RobotController.pose_queue st)) rest n)
      (RobotController.stop_event st)
      (fst (target_for (RobotController.last_head_pose st,
                        RobotController.last_antennas st) d))
      (snd (target_for (RobotController.last_head_pose st,
                        RobotController.last_antennas st) d))
      (RobotController.stdout st).
Proof.
  intros Hq Hn. unfold control_iteration, Queue.get; rewrite Hq.
  cbn [with_pose_queue RobotController.last_head_pose
       RobotController.last_antennas].
  rewrite head_command_spec. unfold Queue.task_done; cbn. rewrite Hn.
  reflexivity.
Qed.

Lemma target_within_range (held : HeadPose * (R * R)) (d : PoseData) :
  within_range (SetTarget (fst held) (snd held)) ->
  angles_in_range d ->
  within_range (SetTarget (fst (target_for held d)) (snd (target_for held d))).
Proof.
  destruct held as [h [l r]]. unfold within_range, target_for, angles_in_range.
  cbn [fst snd]. intros (Hh & Hl & Hr) [AL AR].
  assert (Hh' : Rabs (y_mm match hip_sway d with
                            | Some s => create_head_pose (spec_lateral s)
                            | None => h
                            end) <= HEAD_Y_MM_MAX).
  { destruct (hip_sway d) as [s|]; [|exact Hh].
    cbn. unfold HEAD_Y_MM_MAX. apply Rabs_le, spec_lateral_between. }
  unfold antenna_command.
  destruct (left_arm d) as [vl|]; [|auto].
  destruct (right_arm d) as [vr|]; [|auto].
  specialize (AL vl eq_refl). specialize (AR vr eq_refl).
  repeat split; try exact Hh'; lra.
Qed.

Lemma healthy_start : healthy start.
Proof.
  pose proof PI_RGT_0 as P.
  assert (Z : Rabs 0 <= HEAD_Y_MM_MAX)
    by (unfold HEAD_Y_MM_MAX; rewrite Rabs_R0; lra).
  unfold healthy, start; cbn.
  repeat split; try reflexivity; try lia; try lra; try exact Z;
    try (constructor; fail).
  constructor; [exact Z|constructor].
Qed.

Lemma healthy_exec (w w' : World) (ev : Event) :
  healthy w -> exec w ev = Returns w' -> healthy w'.
Proof.
  intros H. pose proof H as (Mf & Mp & Lf & Lp & U & S & Af & Ap & Rl & Rm).
  destruct ev as [[capture|]|key|]; unfold exec.
  - (* a frame *)
    destruct (yolo_running w); [|intros [= <-]; exact H].
    destruct (stop_signal w); [intros [= <-]; exact H|].
    rewrite yolo_iteration_frame; cbn [bind]. intros [= <-].
    pose proof (after_frame_queue_capacity (yolo_view w) capture) as C.
    destruct (after_frame_cases (yolo_view w) capture)
      as [_ [Q|((frame & d) & E & P)]];
      unfold healthy; cbn in *.
    + rewrite Q. exact H.
    + rewrite C.
      destruct (put_cases _ _ _ P) as [[_ ->]|[F ->]]; cbn.
      * repeat split; assumption.
      * pose proof (room_left (frame_queue w) 1 Mf F) as Room.
        repeat split; try assumption.
        -- rewrite length_app; cbn; lia.
        -- apply Forall_app; split; [assumption|].
           constructor; [|constructor]. cbn.
           exact (emitted_angles_in_range _ _ _ _ E).
  - (* a failed read *)
    destruct (yolo_running w); [|intros [= <-]; exact H].
    destruct (stop_signal w); intros [= <-]; exact H.
  - (* the UI loop *)
    destruct (ui_running w); [|intros [= <-]; exact H].
    destruct (stop_signal w); [intros [= <-]; exact H|].
    destruct (Queue.items (frame_queue w)) as [|[frame d] rest] eqn:Hq.
    + rewrite (ui_iteration_empty w key Hq). intros [= <-]; exact H.
    + destruct (ui_iteration_frame w key frame d rest Hq) as (pq & P & ->).
      intros [= <-]. unfold healthy; cbn.
      inversion Af as [|x l Ad Arest]; subst. cbn in Lf, Ad.
      destruct (put_cases _ _ _ P) as [[_ ->]|[F ->]]; cbn.
      * repeat split; try assumption; lia.
      * pose proof (room_left (pose_queue w) 9 Mp F) as Room.
        repeat split; try assumption; try lia.
        -- rewrite length_app; cbn; lia.
        -- rewrite length_app; cbn; lia.
        -- apply Forall_app; split; [assumption|].
           constructor; [assumption|constructor].
  - (* the control loop *)
    destruct (reachy_running w); [|intros [= <-]; exact H].
    destruct (stop_signal w); intros [= <-].
    + unfold healthy; cbn. repeat split; try assumption.
      apply Forall_app; split; [assumption|].
      constructor; [|constructor]. cbn.
      unfold HEAD_Y_MM_MAX; rewrite Rabs_R0. pose proof PI_RGT_0.
      repeat split; lra.
    + destruct (Queue.items (pose_queue w)) as [|d rest] eqn:Hq.
      * rewrite (control_iteration_idle (reachy_view w) Hq). exact H.
      * cbn in U.
        rewrite (control_iteration_counted (reachy_view w) d rest
                   (length rest) Hq U).
        unfold healthy; cbn.
        inversion Ap as [|x l Ad Arest]; subst. cbn in Lp.
        pose proof (target_within_range
                      (last_head_pose w, last_antennas w) d Rl Ad) as T.
        repeat split; try assumption; try lia.
        apply Forall_app; split; [assumption|].
        constructor; [exact T|constructor].
Qed.

Lemma run_returns (evs : list Event) (w : World) :
  exists w', run w evs = Returns w'.
Proof.
  revert w; induction evs as [|ev evs IH]; intros w; cbn [run].
  - eexists; reflexivity.
  - destruct (exec_returns w ev) as (w1 & ->); cbn [bind]. apply IH.
Qed.

(** A property kept by every step is kept by every run. *)
Lemma run_keeps (P : World -> Prop) :
  (forall w w' ev, P w -> exec w ev = Returns w' -> P w') ->
  forall evs w w', P w -> run w evs = Returns w' -> P w'.
Proof.
  intros Step; induction evs as [|ev evs IH]; intros w w' Hp; cbn [run].
  - intros [= <-]; exact Hp.
  - destruct (exec w ev) as [w1|e] eqn:E; cbn [bind]; [|discriminate].
    apply IH. exact (Step _ _ _ Hp E).
Qed.

Lemma healthy_run (evs : list Event) :
  exists w, run start evs = Returns w /\ healthy w.
Proof.
  destruct (run_returns evs start) as (w & E).
  exists w; split; [exact E|].
  exact (run_keeps healthy healthy_exec evs start w healthy_start E).
Qed.

Lemma run_keeps_on (Q : Event -> Prop) (P : World -> Prop) :
  (forall w w' ev, Q ev -> P w -> exec w ev = Returns w' -> P w') ->
  forall evs w w', Forall Q evs -> P w -> run w evs = Returns w' -> P w'.
Proof.
  intros Step; induction evs as [|ev evs IH]; intros w w' Hq Hp; cbn [run].
  - intros [= <-]; exact Hp.
  - inversion Hq as [|x l Hev Hrest]; subst.
    destruct (exec w ev) as [w1|e] eqn:E; cbn [bind]; [|discriminate].
    apply IH; [exact Hrest|]. exact (Step _ _ _ Hev Hp E).
Qed.

Lemma control_iteration_stop (st : RobotController.State) :
  RobotController.stop_event (control_iteration st)
  = RobotController.stop_event st.
Proof.
  unfold control_iteration, Queue.get.
  destruct (Queue.items (RobotController.pose_queue st)) as [|d rest];
    [reflexivity|].
  cbn [with_pose_queue RobotController.last_head_pose
       RobotController.last_antennas].
  rewrite head_command_spec. unfold Queue.task_done; cbn.
  destruct (Queue.unfinished_tasks (RobotController.pose_queue st));
    reflexivity.
Qed.

(** What a step of a thread can do to the stop flag. *)
Lemma exec_stop (w w' : World) (ev : Event) :
  exec w ev = Returns w' ->
  (stop_signal w = true -> stop_signal w' = true)
  /\ (not_quit_key ev -> stop_signal w' = stop_signal w).
Proof.
  destruct ev as [[capture|]|key|]; unfold exec.
  - destruct (yolo_running w); [|intros [= <-]; auto].
    destruct (stop_signal w) eqn:S; [intros [= <-]; auto|].
    rewrite yolo_iteration_frame; cbn [bind]. intros [= <-]; cbn.
    rewrite (proj1 (after_frame_cases (yolo_view w) capture)); cbn.
    rewrite S; split; [discriminate | reflexivity].
  - destruct (yolo_running w); [|intros [= <-]; auto].
    destruct (stop_signal w) eqn:S; intros [= <-]; cbn; rewrite S; auto.
  - destruct (ui_running w); [|intros [= <-]; auto].
    destruct (stop_signal w) eqn:S; [intros [= <-]; cbn; auto|].
    destruct (Queue.items (frame_queue w)) as [|[frame d] rest] eqn:Hq.
    + rewrite (ui_iteration_empty w key Hq). intros [= <-]; rewrite S; auto.
    + destruct (ui_iteration_frame w key frame d rest Hq) as (pq & _ & ->).
      intros [= <-]; cbn. split; [discriminate|].
      intros NQ. apply Z.eqb_neq in NQ. now rewrite NQ.
  - destruct (reachy_running w); [|intros [= <-]; auto].
    destruct (stop_signal w) eqn:S; intros [= <-]; cbn.
    + rewrite S; auto.
    + rewrite (control_iteration_stop (reachy_view w)); cbn.
      rewrite S; split; [discriminate | reflexivity].
Qed.

Lemma after_frame_nobody (st : PoseDetector.State) (capture : Capture) :
  keypoints capture = KeypointsData [] -> after_frame st capture = st.
Proof.
  intros K. unfold after_frame, yolo_iteration. rewrite K. reflexivity.
Qed.

Lemma after_frame_emits (st : PoseDetector.State) (capture : Capture)
    (loc : Locals) :
  emitted st capture = Some loc ->
  Queue.put_nowait_except_full (PoseDetector.frame_queue st) loc
  = Returns (PoseDetector.frame_queue (after_frame st capture)).
Proof.
  destruct (after_frame_cases st capture) as [_ [Q|(loc' & E & P)]].
  - unfold emitted, after_frame, yolo_iteration in *.
    pose proof (try_block_spec st (keypoints capture)
                  (plot capture, no_signals)) as T.
    destruct (try_block st (keypoints capture) (plot capture, no_signals))
      as [|raised st' l]; [discriminate|].
    intros [= <-].
    assert (Q1 : PoseDetector.frame_queue st' = PoseDetector.frame_queue st).
    { destruct (raw_sway (keypoints capture)); destruct T as [-> _];
        [destruct (PoseDetector.calibrate_event st)|]; reflexivity. }
    destruct (put_nowait_except_full_returns (PoseDetector.frame_queue st') l)
      as (q & E & _).
    rewrite E in Q |- *; cbn in *. now rewrite <- Q1, E.
  - intros E'. rewrite E in E'. injection E' as <-. exact P.
Qed.

(** The three loops while the stop flag is down. *)
Lemma exec_yolo_frame (w : World) (capture : Capture) :
  yolo_running w = true -> stop_signal w = false ->
  exec w (Yolo (Some capture))
  = Returns (yolo_update w (after_frame (yolo_view w) capture) true).
Proof.
  intros R S. unfold exec. rewrite R, S, yolo_iteration_frame. reflexivity.
Qed.

Lemma exec_ui (w : World) (key : Z) :
  ui_running w = true -> stop_signal w = false ->
  exec w (Ui key) = ui_iteration w key.
Proof. intros R S. unfold exec. now rewrite R, S. Qed.

Lemma exec_reachy (w : World) :
  reachy_running w = true -> stop_signal w = false ->
  exec w Reachy
  = Returns (reachy_update w (control_iteration (reachy_view w)) true).
Proof. intros R S. unfold exec. now rewrite R, S. Qed.


(** With the frame queue empty and nobody in view, a step changes nothing
    the operator could see or do. *)
Lemma exec_nobody (w w' : World) (ev : Event) :
  nobody_in_view ev ->
  stop_signal w = false -> Queue.items (frame_queue w) = [] ->
  exec w ev = Returns w' ->
  stop_signal w' = false
  /\ Queue.items (frame_queue w') = []
  /\ window w' = window w
  /\ calibrate_event w' = calibrate_event w
  /\ pose_zero_offsets w' = pose_zero_offsets w
  /\ ui_running w' = ui_running w.
Proof.
  intros N S Hq.
  destruct ev as [[capture|]|key|]; unfold exec; rewrite S.
  - destruct (yolo_running w); [|intros [= <-]; repeat split; auto].
    rewrite yolo_iteration_frame; cbn [bind].
    cbn in N. rewrite (after_frame_nobody _ _ N). intros [= <-]; cbn; repeat split; auto.
  - destruct (yolo_running w); intros [= <-]; cbn; repeat split; auto.
  - destruct (ui_running w) eqn:R; [|intros [= <-]; repeat split; auto].
    rewrite (ui_iteration_empty w key Hq). intros [= <-]; repeat split; auto.
  - destruct (reachy_running w); [|intros [= <-]; repeat split; auto].
    intros [= <-]; cbn.
    rewrite (control_iteration_stop (reachy_view w)); cbn. repeat split; auto.
Qed.

(** Once the control loop has ended, the robot is left alone. *)
Lemma exec_after_control_loop (w w' : World) (ev : Event) :
  reachy_running w = false ->
  exec w ev = Returns w' ->
  reachy_running w' = false /\ mini w' = mini w.
Proof.
  intros R.
  destruct ev as [[capture|]|key|]; unfold exec.
  - destruct (yolo_running w); [|intros [= <-]; auto].
    destruct (stop_signal w); [intros [= <-]; auto|].
    rewrite yolo_iteration_frame; cbn [bind]. intros [= <-]; auto.
  - destruct (yolo_running w); [|intros [= <-]; auto].
    destruct (stop_signal w); intros [= <-]; auto.
  - destruct (ui_running w); [|intros [= <-]; auto].
    destruct (stop_signal w); [intros [= <-]; auto|].
    destruct (Queue.items (frame_queue w)) as [|[frame d] rest] eqn:Hq.
    + rewrite (ui_iteration_empty w key Hq). intros [= <-]; auto.
    + destruct (ui_iteration_frame w key frame d rest Hq) as (pq & _ & ->).
      intros [= <-]; auto.
  - rewrite R. intros [= <-]; auto.
Qed.

(** Under a raised stop flag a thread's next step is its last, and an ended
    thread stays ended. *)
Lemma exec_stopping (w w' : World) (ev : Event) :
  stop_signal w = true ->
  exec w ev = Returns w' ->
  (yolo_running w = false -> yolo_running w' = false)
  /\ (ui_running w = false -> ui_running w' = false)
  /\ (reachy_running w = false -> reachy_running w' = false)
  /\ match ev with
     | Yolo _ => yolo_running w' = false
     | Ui _ => ui_running w' = false
     | Reachy => reachy_running w' = false
     end.
Proof.
  intros S.
  destruct ev as [[capture|]|key|]; unfold exec; rewrite S.
  - destruct (yolo_running w) eqn:R; intros [= <-]; cbn; auto.
  - destruct (yolo_running w) eqn:R; intros [= <-]; cbn; auto.
  - destruct (ui_running w) eqn:R; intros [= <-]; cbn; auto.
  - destruct (reachy_running w) eqn:R; intros [= <-]; cbn; auto.
Qed.

Lemma run_stopping (evs : list Event) (w w' : World) :
  stop_signal w = true ->
  run w evs = Returns w' ->
  ((yolo_running w = false \/ exists r, In (Yolo r) evs) ->
   yolo_running w' = false)
  /\ ((ui_running w = false \/ exists k, In (Ui k) evs) ->
      ui_running w' = false)
  /\ ((reachy_running w = false \/ In Reachy evs) ->
      reachy_running w' = false).
Proof.
  revert w; induction evs as [|ev evs IH]; intros w S; cbn [run].
  - intros [= <-]. repeat split; intros [H|H]; auto;
      try (destruct H as [? []]); try destruct H.
  - destruct (exec w ev) as [w1|e] eqn:E; cbn [bind]; [|discriminate].
    intros Hrun.
    destruct (exec_stopping w w1 ev S E) as (Y & U & R & Own).
    destruct (IH w1 (proj1 (exec_stop w w1 ev E) S) Hrun) as (IY & IU & IR).
    repeat split.
    + intros [H|[r [H|H]]]; apply IY; [left; auto | | right; eauto].
      left. subst ev. exact Own.
    + intros [H|[k [H|H]]]; apply IU; [left; auto | | right; eauto].
      left. subst ev. exact Own.
    + intros [H|[H|H]]; apply IR; [left; auto | | right; auto].
      left. subst ev. exact Own.
Qed.

End World.


(** X12: no exception ever leaves a thread, and the queues stay within
    their capacities: whatever the camera, the detector and the keyboard do
    and however the three loops interleave, the run goes on, the frame queue
    never holds more than 2 items and the signal queue never more than
    10. *)
Theorem threads_never_crash_queues_stay_bounded (evs : list Main.Event) :
  exists w,
    Main.run Main.start evs = Returns w
    /\ (length (Queue.items (Main.frame_queue w)) <= 2)%nat
    /\ (length (Queue.items (Main.pose_queue w)) <= 10)%nat.
Proof.
  destruct (healthy_run evs) as (w & E & H).
  exists w; split; [exact E|].
  destruct H as (_ & _ & Lf & Lp & _). auto.
Qed.

(** X13: the control loop's own bookkeeping never raises.  As long as the
    robot calls themselves ([create_head_pose], [set_target]) do not fail,
    which is what the [except Exception] clause is there for, that clause is
    never reached in any run: [np.interp] always gets two arrays of one
    length and [task_done] is never called more often than bundles were
    taken, so no error is printed; and between two iterations of the loops
    the signal queue's count of unfinished tasks is the number of bundles
    still waiting. *)
Theorem control_loop_reports_no_error (evs : list Main.Event) :
  exists w,
    Main.run Main.start evs = Returns w
    /\ Main.reachy_stdout w = []
    /\ Queue.unfinished_tasks (Main.pose_queue w)
       = length (Queue.items (Main.pose_queue w)).
Proof.
  destruct (healthy_run evs) as (w & E & H).
  exists w; split; [exact E|].
  destruct H as (_ & _ & _ & _ & U & S & _). auto.
Qed.

(** X14: in exact arithmetic (floats read as reals, so with neither NaN nor
    rounding), every call the robot ever receives is within the actuators'
    ranges: a lateral displacement of at most 35 mm, a left antenna between
    -pi and 0 and a right antenna between 0 and pi.  The angles come from
    [calculate_angle], the queues hand the bundles over unchanged, and the
    controller maps them.  (With IEEE floats a NaN sway or angle would reach
    the robot as it is, and a binary32 arccos can exceed [math.pi] by a
    rounding error, which puts an antenna command that far outside its
    range.) *)
Theorem robot_calls_within_range (evs : list Main.Event) :
  exists w,
    Main.run Main.start evs = Returns w
    /\ Forall Runs.within_range (Main.mini w).
Proof.
  destruct (healthy_run evs) as (w & E & H).
  exists w; split; [exact E|].
  destruct H as (_ & _ & _ & _ & _ & _ & _ & _ & _ & Rm). exact Rm.
Qed.

(** X15: the stop flag is one-way: once set, no step of any thread clears
    it. *)
Theorem stop_flag_is_never_cleared (evs : list Main.Event)
    (w w' : Main.World) :
  Main.stop_signal w = true ->
  Main.run w evs = Returns w' ->
  Main.stop_signal w' = true.
Proof.
  intros Hs Hrun.
  apply (run_keeps (fun w => Main.stop_signal w = true)
           (fun w w' ev P E => proj1 (exec_stop w w' ev E) P) evs w w' Hs Hrun).
Qed.

Lemma stop_flag_is_never_cleared_witness :
  exists w',
    Main.run
      (Main.mkWorld (Queue.create 2) (Queue.create 10) true false 0 []
         (RobotController.create_head_pose 0) (0, 0) [] [] [] true true true)
      [Main.Yolo None; Main.Ui 113%Z; Main.Reachy] = Returns w'
    /\ Main.stop_signal w' = true.
Proof.
  eexists. split; [reflexivity|].
  apply (stop_flag_is_never_cleared
           [Main.Yolo None; Main.Ui 113%Z; Main.Reachy]
           (Main.mkWorld (Queue.create 2) (Queue.create 10) true false 0 []
              (RobotController.create_head_pose 0) (0, 0) [] [] []
              true true true)); reflexivity.
Defined.

(** X16: inside the three loops only a [q] taken by the UI loop sets the stop
    flag: over any sequence of iterations of the loop bodies in which the UI
    loop takes no [q], a stop flag that was down stays down; in particular
    the vision worker leaving after a failed read does not set it.  (Outside
    the loop bodies [main]'s [KeyboardInterrupt] handler and [yolo_loop]'s
    failure to open the camera set it too; they are not steps of these
    runs.) *)
Theorem only_q_sets_the_stop_flag (evs : list Main.Event)
    (w w' : Main.World) :
  Forall Runs.not_quit_key evs ->
  Main.stop_signal w = false ->
  Main.run w evs = Returns w' ->
  Main.stop_signal w' = false.
Proof.
  intros Hq Hs Hrun.
  apply (run_keeps_on Runs.not_quit_key
           (fun w => Main.stop_signal w = false)
           (fun w w' ev Q P E =>
              eq_trans (proj2 (exec_stop w w' ev E) Q) P)
           evs w w' Hq Hs Hrun).
Qed.

Lemma only_q_sets_the_stop_flag_witness :
  exists w',
    Main.run Main.start [Main.Yolo None; Main.Ui 99%Z; Main.Reachy]
      = Returns w'
    /\ Main.stop_signal w' = false.
Proof.
  eexists. split; [reflexivity|].
  apply (only_q_sets_the_stop_flag
           [Main.Yolo None; Main.Ui 99%Z; Main.Reachy] Main.start).
  - repeat constructor; cbn; discriminate.
  - reflexivity.
  - reflexivity.
Defined.



(** X18: while nobody is in front of the camera the program is deaf and
    blind: starting with an empty frame queue, however many frames are read
    and whatever keys are pressed ([q] and [c] included), no frame reaches
    the frame queue, the window shows nothing new, the stop flag stays down,
    the UI loop keeps running and the calibration trigger and offset are
    untouched. *)
Theorem nobody_in_view_nothing_happens (evs : list Main.Event)
    (w w' : Main.World) :
  Forall Runs.nobody_in_view evs ->
  Main.stop_signal w = false ->
  Queue.items (Main.frame_queue w) = [] ->
  Main.run w evs = Returns w' ->
  Main.stop_signal w' = false
  /\ Queue.items (Main.frame_queue w') = []
  /\ Main.window w' = Main.window w
  /\ Main.calibrate_event w' = Main.calibrate_event w
  /\ Main.pose_zero_offsets w' = Main.pose_zero_offsets w
  /\ Main.ui_running w' = Main.ui_running w.
Proof.
  intros Hn Hs Hq Hrun.
  apply (run_keeps_on Runs.nobody_in_view
           (fun w1 => Main.stop_signal w1 = false
                      /\ Queue.items (Main.frame_queue w1) = []
                      /\ Main.window w1 = Main.window w
                      /\ Main.calibrate_event w1 = Main.calibrate_event w
                      /\ Main.pose_zero_offsets w1 = Main.pose_zero_offsets w
                      /\ Main.ui_running w1 = Main.ui_running w))
    with (evs := evs) (w := w); auto.
  - intros w1 w2 ev N (S1 & Q1 & W1 & C1 & O1 & U1) E.
    destruct (exec_nobody w1 w2 ev N S1 Q1 E) as (S2 & Q2 & W2 & C2 & O2 & U2).
    repeat split; congruence.
  - repeat split; auto.
Qed.

Lemma nobody_in_view_nothing_happens_witness :
  exists w',
    Main.run Main.start
      [Main.Yolo (Some (PoseDetector.mkCapture 0%nat
                          (PoseDetector.KeypointsData [])));
       Main.Ui 113%Z; Main.Ui 99%Z; Main.Reachy] = Returns w'
    /\ Main.stop_signal w' = false
    /\ Queue.items (Main.frame_queue w') = []
    /\ Main.window w' = Main.window Main.start
    /\ Main.calibrate_event w' = Main.calibrate_event Main.start
    /\ Main.pose_zero_offsets w' = Main.pose_zero_offsets Main.start
    /\ Main.ui_running w' = Main.ui_running Main.start.
Proof.
  eexists. split; [reflexivity|].
  apply (nobody_in_view_nothing_happens
           [Main.Yolo (Some (PoseDetector.mkCapture 0%nat
                               (PoseDetector.KeypointsData [])));
            Main.Ui 113%Z; Main.Ui 99%Z; Main.Reachy] Main.start).
  - repeat constructor.
  - reflexivity.
  - reflexivity.
  - reflexivity.
Defined.

(** X19: the stop flag ends every thread: once it is set, a thread is out
    of its loop as soon as it has taken one more step, and stays out. *)
Theorem stop_ends_every_thread (evs : list Main.Event) (w w' : Main.World) :
  Main.stop_signal w = true ->
  (exists r, In (Main.Yolo r) evs) ->
  (exists k, In (Main.Ui k) evs) ->
  In Main.Reachy evs ->
  Main.run w evs = Returns w' ->
  Main.yolo_running w' = false
  /\ Main.ui_running w' = false
  /\ Main.reachy_running w' = false.
Proof.
  intros S Y U R Hrun.
  destruct (run_stopping evs w w' S Hrun) as (HY & HU & HR).
  repeat split; [apply HY | apply HU | apply HR]; right; assumption.
Qed.

Lemma stop_ends_every_thread_witness :
  exists w',
    Main.run
      (Main.mkWorld (Queue.create 2) (Queue.create 10) true false 0 []
         (RobotController.create_head_pose 0) (0, 0) [] [] [] true true true)
      [Main.Reachy; Main.Yolo None; Main.Ui 0%Z] = Returns w'
    /\ Main.yolo_running w' = false
    /\ Main.ui_running w' = false
    /\ Main.reachy_running w' = false.
Proof.
  eexists. split; [reflexivity|].
  apply (stop_ends_every_thread
           [Main.Reachy; Main.Yolo None; Main.Ui 0%Z]
           (Main.mkWorld (Queue.create 2) (Queue.create 10) true false 0 []
              (RobotController.create_head_pose 0) (0, 0) [] [] []
              true true true)).
  - reflexivity.
  - exists None; right; left; reflexivity.
  - exists 0%Z; right; right; left; reflexivity.
  - left; reflexivity.
  - reflexivity.
Defined.

(** X20: the last thing the robot is told is to go back to neutral: when the
    control loop sees the stop flag it issues one [goto_target] with lateral
    0 and antennas (0, 0), and whatever the other threads do afterwards the
    robot receives nothing more. *)
Theorem final_call_is_neutral (evs : list Main.Event) (w w' : Main.World) :
  Main.stop_signal w = true ->
  Main.reachy_running w = true ->
  Main.run w (Main.Reachy :: evs) = Returns w' ->
  Main.mini w'
  = Main.mini w
    ++ [RobotController.GotoTarget (RobotController.create_head_pose 0)
                                   (Some (0, 0))]
  /\ Main.reachy_running w' = false.
Proof.
  intros S R. cbn [Main.run]. unfold Main.exec at 1. rewrite R, S.
  cbn [bind]. intros Hrun.
  assert (P : Main.reachy_running w' = false
              /\ Main.mini w'
                 = Main.mini w
                   ++ [RobotController.GotoTarget
                         (RobotController.create_head_pose 0) (Some (0, 0))]).
  { apply (run_keeps
             (fun w1 => Main.reachy_running w1 = false
                        /\ Main.mini w1
                           = Main.mini w
                             ++ [RobotController.GotoTarget
                                   (RobotController.create_head_pose 0)
                                   (Some (0, 0))]))
      with (evs := evs)
           (w := Main.reachy_update w
                   (RobotController.control_exit (Main.reachy_view w)) false);
      auto.
    intros w1 w2 ev [R1 M1] E.
    destruct (exec_after_control_loop w1 w2 ev R1 E) as [R2 M2].
    split; congruence. }
  destruct P; auto.
Qed.

Lemma final_call_is_neutral_witness :
  exists w',
    Main.run
      (Main.mkWorld (Queue.create 2) (Queue.create 10) true false 0 []
         (RobotController.create_head_pose 0) (0, 0) [] [] [] true true true)
      (Main.Reachy :: [Main.Reachy; Main.Ui 0%Z]) = Returns w'
    /\ Main.mini w'
       = [] ++ [RobotController.GotoTarget (RobotController.create_head_pose 0)
                                           (Some (0, 0))]
    /\ Main.reachy_running w' = false.
Proof.
  eexists. split; [reflexivity|].
  apply (final_call_is_neutral [Main.Reachy; Main.Ui 0%Z]
           (Main.mkWorld (Queue.create 2) (Queue.create 10) true false 0 []
              (RobotController.create_head_pose 0) (0, 0) [] [] []
              true true true)); reflexivity.
Defined.

(** X21: one frame, end to end.  With the three loops running and both
    queues empty, a frame that the vision loop emits with bundle [d], then a
    pass of the UI loop (any key but [q]), then a pass of the control loop,
    put on the robot exactly the target that [d] asks for, show the
    annotated frame in the window, and leave both queues empty again. *)
Theorem frame_travels_to_robot (w : Main.World)
    (capture : PoseDetector.Capture) (frame : PoseDetector.AnnotatedFrame)
    (d : PoseData) (key : Z) :
  Main.yolo_running w = true ->
  Main.ui_running w = true ->
  Main.reachy_running w = true ->
  Main.stop_signal w = false ->
  Queue.items (Main.frame_queue w) = [] ->
  Queue.full (Main.frame_queue w) = false ->
  Queue.items (Main.pose_queue w) = [] ->
  Queue.full (Main.pose_queue w) = false ->
  PoseDetector.emitted (Main.yolo_view w) capture = Some (frame, d) ->
  Z.land key 255 <> Main.ord_q ->
  exists w',
    Main.run w [Main.Yolo (Some capture); Main.Ui key; Main.Reachy]
      = Returns w'
    /\ Main.mini w'
       = Main.mini w
         ++ [RobotController.SetTarget
               (fst (Runs.target_for
                       (Main.last_head_pose w, Main.last_antennas w) d))
               (snd (Runs.target_for
                       (Main.last_head_pose w, Main.last_antennas w) d))]
    /\ Main.window w' = Main.window w ++ [frame]
    /\ Queue.items (Main.frame_queue w') = []
    /\ Queue.items (Main.pose_queue w') = [].
Proof.
  intros RY RU RR S Qf Ff Qp Fp E NQ.
  cbn [Main.run].
  rewrite (exec_yolo_frame w capture RY S); cbn [bind].
  pose proof (after_frame_emits _ _ _ E) as P1.
  destruct (put_cases _ _ _ P1) as [[F _]|[_ Q1]];
    [cbn in F; congruence|].
  cbn in Q1. rewrite Qf in Q1; cbn in Q1.
  pose proof (proj1 (after_frame_cases
                       (Main.yolo_view w) capture)) as S1.
  cbn in S1. rewrite S in S1.
  set (w1 := Main.yolo_update w
               (PoseDetector.after_frame (Main.yolo_view w) capture) true).
  assert (I1 : Queue.items (Main.frame_queue w1) = [(frame, d)])
    by (unfold w1; cbn; rewrite Q1; reflexivity).
  rewrite (exec_ui w1 key RU S1).
  destruct (ui_iteration_frame w1 key frame d [] I1) as (pq & P2 & ->).
  cbn [bind].
  destruct (put_cases _ _ _ P2) as [[F _]|[_ ->]];
    [unfold w1 in F; cbn in F; congruence|].
  apply Z.eqb_neq in NQ. rewrite NQ. cbn [negb].
  match goal with
  | |- context [Main.exec ?x Main.Reachy] => set (w2 := x)
  end.
  rewrite (exec_reachy w2 RR S1). cbn [bind].
  assert (I2 : Queue.items (RobotController.pose_queue (Main.reachy_view w2))
               = [d])
    by (unfold w2, w1; cbn; rewrite Qp; reflexivity).
  destruct (control_iteration_sends (Main.reachy_view w2) d [] I2)
    as (M & _ & _ & I3).
  eexists; split; [reflexivity|]. cbn.
  rewrite M, I3. repeat split; reflexivity.
Qed.

Lemma frame_travels_to_robot_witness :
  exists w',
    Main.run Main.start
      [Main.Yolo (Some (PoseDetector.mkCapture 0%nat PoseDetector.KeypointsNone));
       Main.Ui 0%Z; Main.Reachy] = Returns w'
    /\ Main.mini w'
       = Main.mini Main.start
         ++ [RobotController.SetTarget
               (fst (Runs.target_for
                       (Main.last_head_pose Main.start,
                        Main.last_antennas Main.start)
                       PoseDetector.no_signals))
               (snd (Runs.target_for
                       (Main.last_head_pose Main.start,
                        Main.last_antennas Main.start)
                       PoseDetector.no_signals))]
    /\ Main.window w'
       = Main.window Main.start ++ [PoseDetector.mkAnnotated 0%nat []]
    /\ Queue.items (Main.frame_queue w') = []
    /\ Queue.items (Main.pose_queue w') = [].
Proof.
  apply (frame_travels_to_robot Main.start
           (PoseDetector.mkCapture 0%nat PoseDetector.KeypointsNone)
           (PoseDetector.mkAnnotated 0%nat []) PoseDetector.no_signals 0%Z);
    try reflexivity.
  cbn; discriminate.
Defined.



(** * The arithmetic in binary64 *)

Section Binary64.

Import PrimFloat.


(** [np.clip] on a float: a NaN goes through, anything else ends on a bound
    or strictly between the two. *)
Lemma f64_clip_cases (x lo hi : float) :
  is_nan lo = false -> (lo <? hi)%float = true ->
  (is_nan x = true /\ F64.clip x lo hi = x)
  \/ (is_nan x = false
      /\ (F64.clip x lo hi = lo
          \/ F64.clip x lo hi = hi
          \/ (F64.clip x lo hi = x
              /\ (lo <? x)%float = true /\ (x <? hi)%float = true))).
Proof.
  intros Hlo Hlt. unfold F64.clip, F64.maximum, F64.minimum.
  destruct (is_nan x) eqn:N.
  - left. rewrite N. auto.
  - right. split; [reflexivity|].
    destruct (lo <? x)%float eqn:L.
    + rewrite N. destruct (x <? hi)%float eqn:U; auto.
    + rewrite Hlo, Hlt. auto.
Qed.




(** X23: in binary64 as well the clip bounds every lateral command that is a
    number: for every float hip sway, infinities included, the command is
    -35, 35 or strictly between; only NaN escapes it, and a NaN sway goes
    through [np.interp] and [np.clip] unchanged. *)
Theorem head_y_cmd_nan_or_clamped (sway : float) :
  exists y,
    F64.head_y_cmd sway = Returns y
    /\ (is_nan sway = true -> y = sway)
    /\ (is_nan y = false ->
        y = (-35)%float \/ y = 35%float
        \/ (((-35) <? y)%float = true /\ (y <? 35)%float = true)).
Proof.
  unfold F64.head_y_cmd, F64.interp.
  cbn [F64.SWAY_INPUT_RANGE F64.HEAD_OUTPUT_RANGE length Nat.eqb combine].
  assert (K : forall v, exists y,
             Returns (F64.clip v (- F64.HEAD_Y_MM_MAX)%float F64.HEAD_Y_MM_MAX)
             = Returns y
             /\ (is_nan v = true -> y = v)
             /\ (is_nan y = false ->
                 y = (-35)%float \/ y = 35%float
                 \/ (((-35) <? y)%float = true /\ (y <? 35)%float = true))).
  { intros v. eexists; split; [reflexivity|].
    destruct (f64_clip_cases v (- F64.HEAD_Y_MM_MAX)%float F64.HEAD_Y_MM_MAX
                eq_refl eq_refl) as [[N E]|[N E]].
    - rewrite E. split; [auto | congruence].
    - split; [congruence|]. intros _.
      destruct E as [E|[E|(E & L1 & L2)]]; rewrite E; auto. }
  destruct (is_nan sway) eqn:N; cbn [bind].
  - destruct (K sway) as (y & E & H1 & H2). exists y. auto.
  - destruct (sway <? - F64.SWAY_PIXEL_MAX)%float; cbn [bind].
    + destruct (K F64.HEAD_Y_MM_MAX) as (y & E & _ & H2).
      exists y; repeat split; auto; discriminate.
    + match goal with
      | |- context [F64.clip ?v _ _] => destruct (K v) as (y & E & _ & H2)
      end.
      exists y; repeat split; auto; discriminate.
Qed.

End Binary64.
